(** * The k8saudit event source: producers, normalizer, batcher, lifecycle

  A shallow embedding of [plugins/k8saudit/pkg/k8saudit/source.go].
  Goroutines are modelled by what they put on their channels, a [select]
  by the case the Go runtime resolves it to, and the calls into libraries
  outside the repository (fastjson, time, net/http, the plugin SDK) by
  section variables or by small models of their documented behaviour. *)

From Stdlib Require Import ZArith Lia DecimalString.
From stdpp Require Import base list strings.

#[local] Set Warnings "-register-all".

Local Open Scope string_scope.
Local Open Scope list_scope.
Local Open Scope Z_scope.

(** ** Go values shared by all components *)

(** A [[]byte] and a Go [string] hold the same bytes; conversions between
  them are the identity. *)
Definition bytes := string.

Definition len (b : bytes) : Z := Z.of_nat (String.length b).

(** Go [error] values: the two sentinels of the plugin SDK and errors
  that only carry a text ([fmt.Errorf], [errors.New], library errors). *)
Inductive error :=
| ErrEOF
| ErrTimeout
| New (msg : string).

(** An [error] variable is an interface value: [None] is Go's [nil]. *)
Definition goerror := option error.

Definition Error (e : error) : string :=
match e with
| ErrEOF => "eof"
| ErrTimeout => "timeout"
| New msg => msg
end.

(** The two-valued receive [v, ok := <-ch]. *)
Inductive recv (A : Type) :=
| Closed
| Recv (a : A).
Arguments Closed {A}.
Arguments Recv {A} a.

(** [time.Time], observed through [UnixNano]. *)
Record Time := { UnixNano : Z }.

(** [uint64(x)] of an [int64] and [int(x)], [int64(x)] of a [uint64]. *)
Definition uint64 (x : Z) : Z := x mod 2 ^ 64.
Definition int64 (x : Z) : Z :=
let r := x mod 2 ^ 64 in if r <? 2 ^ 63 then r else r - 2 ^ 64.
Definition int (x : Z) : Z := int64 x.

(** [strings.Contains]. *)
Fixpoint Contains (s substr : string) : bool :=
String.prefix substr s ||
match s with
| EmptyString => false
| String _ s' => Contains s' substr
end.

(** [%d] of a length. *)
Definition fmt_d (n : Z) : string := NilZero.string_of_uint (N.to_uint (Z.to_N n)).

(** ** fastjson values *)

Module fastjson.

Inductive Value :=
| Null
| VTrue
| VFalse
| Number (raw : string)
| Str (s : string)
| Array (a : list Value)
| Object (kvs : list (string * Value)).

(** [Object.Get]: the first pair whose key matches. *)
Fixpoint Object_Get (kvs : list (string * Value)) (key : string) : option Value :=
  match kvs with
  | [] => None
  | (k, v) :: kvs' => if String.eqb k key then Some v else Object_Get kvs' key
  end.

(** [Value.Get] with one key that is not a decimal index: only objects
    have fields (an array would be indexed by [strconv.Atoi key], which
    fails for the keys used here). *)
Definition Get (v : Value) (key : string) : option Value :=
  match v with
  | Object kvs => Object_Get kvs key
  | _ => None
  end.

(** [Value.GetStringBytes]: [nil] unless the value is a string. *)
Definition GetStringBytes (v : option Value) : option bytes :=
  match v with
  | Some (Str s) => Some s
  | _ => None
  end.

(** [string(b)] of a possibly nil byte slice. *)
Definition string_of (b : option bytes) : string := default "" b.

Section GetArray.
(** Whether the slice behind an array without elements is [nil]: the
    parser reslices the (zeroed or recycled) backing store of the value
    to length 0, so both answers occur in fastjson. *)
Variable emptyArrayIsNil : bool.

(** [Value.GetArray]: [nil] unless the value is an array. *)
Definition GetArray (v : option Value) : option (list Value) :=
  match v with
  | Some (Array a) =>
      match a with
      | [] => if emptyArrayIsNil then None else Some []
      | _ => Some a
      end
  | _ => None
  end.
End GetArray.

End fastjson.

Import fastjson.

(** ** Normalizer: [parseJSONAuditEvent], [parseJSONMessage] and the parsing
    goroutine of [openEventSource] *)

Record auditEvent := { Data : Value; Timestamp : Time }.

Section Normalizer.

(** See [GetArray]. *)
Variable emptyArrayIsNil : bool.

(** [time.Parse(time.RFC3339Nano, s)]. *)
Variable time_Parse : string -> Time + error.

(** [fastjson.ParseBytes]. *)
Variable ParseBytes : bytes -> Value + error.

Definition parseJSONAuditEvent (value : Value) : auditEvent + error :=
  match Get value "stageTimestamp" with
  | None => inr (New "can't read stageTimestamp")
  | Some stageTimestamp =>
      match time_Parse (string_of (GetStringBytes (Some stageTimestamp))) with
      | inr err => inr err
      | inl timestamp => inl {| Timestamp := timestamp; Data := value |}
      end
  end.

(** The loop over [items] of the "EventList" case: the first error
    discards what was collected. *)
Fixpoint parseItems (items : list Value) (res : list auditEvent)
  : list auditEvent * goerror :=
  match items with
  | [] => (res, None)
  | item :: items' =>
      match parseJSONAuditEvent item with
      | inr err => ([], Some err)
      | inl event => parseItems items' (res ++ [event])
      end
  end.

Definition notRecognized : list auditEvent * goerror :=
  ([], Some (New "data not recognized as a k8s audit event")).

(** The [else if] branch of [parseJSONMessage] and the final [return]:
    dispatch on the [kind] field of a value that is not an array. *)
Definition parseKind (value : Value) : list auditEvent * goerror :=
  match Get value "kind" with
  | None => notRecognized
  | Some kind =>
      match GetStringBytes (Some kind) with
      | None => notRecognized
      | Some k =>
          if String.eqb k "EventList" then
            match GetArray emptyArrayIsNil (Get value "items") with
            | Some items => parseItems items []
            | None => notRecognized
            end
          else if String.eqb k "Event" then
            match parseJSONAuditEvent value with
            | inr err => ([], Some err)
            | inl event => ([event], None)
            end
          else notRecognized
      end
  end.

(** The loop over the elements of the array case, given the recursive
    call: an error of an element returns the records of the elements
    before it together with the error. *)
Definition rangeArray (rec : Value -> list auditEvent * goerror)
  : list Value -> list auditEvent -> list auditEvent * goerror :=
  fix range (vs : list Value) (res : list auditEvent) {struct vs} :=
    match vs with
    | [] => (res, None)
    | v :: vs' =>
        match rec v with
        | (_, Some err) => (res, Some err)
        | (values, None) => range vs' (res ++ values)
        end
    end.

(** [parseJSONMessage] on a non-nil value. *)
Fixpoint parseJSONMessage (value : Value) : list auditEvent * goerror :=
  match value with
  | Array a => rangeArray parseJSONMessage a []
  | _ => parseKind value
  end.

(** [parseJSONMessage] on a pointer: the [nil] check comes first. *)
Definition parseJSONMessagePtr (value : option Value) : list auditEvent * goerror :=
  match value with
  | None => ([], Some (New "can't parse nil JSON message"))
  | Some v => parseJSONMessage v
  end.

(** What one iteration of the parsing goroutine does: the records sent
    on [newEventChan], the errors sent on [newErrorChan], the lines given
    to the logger, and whether the loop goes on. *)
Record iteration := {
  toEventChan : list auditEvent;
  toErrorChan : list goerror;
  printed : list string;
  continues : bool
}.

(** The body of [case bytes, ok := <-eventChan] after the [ok] test,
    given what [fastjson.ParseBytes(bytes)] returned. *)
Definition onParsed (parsed : Value + error) : iteration :=
  match parsed with
  | inr err =>
      {| toEventChan := []; toErrorChan := []; printed := [Error err]; continues := true |}
  | inl jsonValue =>
      match parseJSONMessagePtr (Some jsonValue) with
      | (_, Some err) =>
          {| toEventChan := []; toErrorChan := []; printed := [Error err]; continues := true |}
      | (values, None) =>
          {| toEventChan := values; toErrorChan := []; printed := []; continues := true |}
      end
  end.

Definition onMessage (msg : bytes) : iteration := onParsed (ParseBytes msg).

(** The case the [select] of the goroutine is resolved to. *)
Inductive normSelect :=
| FromEventChan (r : recv bytes)
| CtxDone
| FromErrorChan (r : recv goerror).

Definition stop : iteration :=
  {| toEventChan := []; toErrorChan := []; printed := []; continues := false |}.

Definition normalizerIteration (s : normSelect) : iteration :=
  match s with
  | FromEventChan Closed => stop
  | FromEventChan (Recv msg) => onMessage msg
  | CtxDone => stop
  | FromErrorChan Closed => stop
  | FromErrorChan (Recv err) =>
      {| toEventChan := []; toErrorChan := [err]; printed := []; continues := true |}
  end.

(** The records a raw message contributes to the stream. *)
Definition normalize (msg : bytes) : list auditEvent := toEventChan (onMessage msg).

End Normalizer.

(** ** Plugin state, contexts and the event source *)

(** The fields of [Plugin.Config] that this file reads.  Both sizes are
  unsigned 64-bit settings; the code converts them at each use. *)
Record PluginConfig := {
SSLCertificate : string;
MaxEventSize : Z;
WebhookMaxBatchSize : Z
}.

Record Plugin := { Config : PluginConfig }.

Definition time_Millisecond : Z := 1000000.
Definition time_Second : Z := 1000000000.

Definition defaultEventTimeout : Z := 30 * time_Millisecond.
Definition webServerShutdownTimeoutSecs : Z := 5.
Definition webServerEventChanBufSize : Z := 50.

(** What [Close] can act on: the clock, the cancellation state of the
  context made by [context.WithCancel], and the HTTP server. [busy] is
  the time the connections that are open still need to become idle. *)
Record world := {
clock : Z;
cancelled : bool;
inShutdown : bool;
busy : Z
}.

(** The two contexts a source is opened with. [context.Background()] is
  never done; the other one is done once [cancelCtx] has run. *)
Inductive context :=
| Background
| WithCancel.

Definition ctx_Done (ctx : context) (cancelCtxCalled : bool) : bool :=
match ctx with
| Background => false
| WithCancel => cancelCtxCalled
end.

(** One slot of the batch, behind [sdk.EventWriter]. *)
Record EventWriter := { written : bytes; timestamp : Z }.

Definition SetTimestamp (w : EventWriter) (ts : Z) : EventWriter :=
{| written := written w; timestamp := ts |}.

Definition EventWriters := list EventWriter.

Record eventSource := {
events : EventWriters;
ctx : context;
cancel : option (world -> world);
eof : bool
}.

Definition set_eof (e : eventSource) : eventSource :=
{| events := events e; ctx := ctx e; cancel := cancel e; eof := true |}.

Section Open.

Variable k : Plugin.

(** [sdk.DefaultBatchSize] and [sdk.NewEventWriters]. *)
Variable DefaultBatchSize : Z.
Variable NewEventWriters : Z -> Z -> EventWriters + error.

(** [openEventSource], without the parsing goroutine it launches (that
    one is [normalizerIteration]). *)
Definition openEventSource (ctx : context) (onClose : option (world -> world))
  : eventSource + error :=
  match NewEventWriters (int64 DefaultBatchSize) (int64 (MaxEventSize (Config k))) with
  | inr err => inr err
  | inl evts => inl {| eof := false; ctx := ctx; cancel := onClose; events := evts |}
  end.

(** *** File producer *)

(** An open file as the [bufio.Scanner] with [bufio.ScanLines] sees it:
    the tokens [Scan] yields, and what [Err] returns when [Scan] has
    returned false ([nil] at the physical end of the file). *)
Record File := { lines : list string; scanErr : goerror }.

(** The operations of a producer goroutine on its two channels. *)
Inductive chanOp :=
| SendBytes (b : bytes)
| SendError (e : goerror)
| CloseErrorChan
| CloseEventChan.

(** The goroutine of [OpenFilePath]; [err] is the variable of the
    enclosing function that the closure captures. *)
Definition scanGoroutine (err : goerror) (file : File) : list chanOp :=
  flat_map (fun line => if 0 <? len line then [SendBytes line] else []) (lines file)
  ++ (match scanErr file with
      | Some _ => [SendError err]
      | None => []
      end)
  ++ [CloseErrorChan; CloseEventChan].

(** A source together with the channel operations of its producer. *)
Record opened := { producer : list chanOp; instance : eventSource }.

(** [os.Open]. *)
Variable os_Open : string -> File * goerror.

Definition OpenFilePath (filePath : string) : opened + error :=
  let '(file, err) := os_Open filePath in
  match err with
  | Some e => inr e
  | None =>
      match openEventSource Background None with
      | inr e => inr e
      | inl res => inl {| producer := scanGoroutine err file; instance := res |}
      end
  end.

(** *** Webhook producer *)

Record Request := {
  Method : string;
  ContentType : string;   (* req.Header.Get("Content-Type") *)
  Body : bytes;           (* what the body delivers *)
  BodyErr : goerror       (* and the error that ends it, nil for EOF *)
}.

Record Response := { status : Z; body : string }.

Definition StatusOK : Z := 200.
Definition StatusBadRequest : Z := 400.
Definition StatusMethodNotAllowed : Z := 405.

Definition LF : string := String.String (Ascii.ascii_of_nat 10) EmptyString.

(** [http.Error]: the status and the text followed by a newline. *)
Definition http_Error (msg : string) (code : Z) : Response :=
  {| status := code; body := msg +:+ LF |}.

(** [ioutil.ReadAll] of the body behind [http.MaxBytesReader(w, body, n)]:
    a negative limit is treated as 0, and a body of more than the limit
    fails the read. *)
Definition ReadAll_MaxBytes (n : Z) (req : Request) : bytes * goerror :=
  let n := if n <? 0 then 0 else n in
  if n <? len (Body req)
  then (String.substring 0 (Z.to_nat n) (Body req), Some (New "http: request body too large"))
  else (Body req, BodyErr req).

(** What the handler did: the response, the bodies sent on [eventChan]
    and the lines given to the logger. *)
Record handled := {
  response : Response;
  enqueued : list bytes;
  logged : list string
}.

Definition handler (req : Request) : handled :=
  if negb (String.eqb (Method req) "POST") then
    {| response := http_Error (Method req +:+ " method not allowed") StatusMethodNotAllowed;
       enqueued := []; logged := [] |}
  else if negb (Contains (ContentType req) "application/json") then
    {| response := http_Error "wrong Content Type" StatusBadRequest;
       enqueued := []; logged := [] |}
  else
    match ReadAll_MaxBytes (int64 (WebhookMaxBatchSize (Config k))) req with
    | (_, Some err) =>
        let msg := "bad request: " +:+ Error err in
        {| response := http_Error msg StatusBadRequest; enqueued := []; logged := [msg] |}
    | (bytes, None) =>
        {| response := {| status := StatusOK; body := "" |};
           enqueued := [bytes]; logged := [] |}
    end.

(** [http.ErrServerClosed] is recognised by identity. *)
Definition ErrServerClosed : error := New "http: Server closed".

Definition isErrServerClosed (e : error) : bool :=
  match e with
  | New msg => String.eqb msg "http: Server closed"
  | _ => false
  end.

(** The goroutine that runs the server, given what [ListenAndServe]
    or [ListenAndServeTLS] returned. The event channel is not closed. *)
Definition serveGoroutine (err : goerror) : list chanOp :=
  (match err with
   | Some e => if isErrServerClosed e then [] else [SendError err]
   | None => []
   end) ++ [CloseErrorChan].

(** A context made by [context.WithTimeout(ctx, d)]. *)
Record timedContext := { parentDone : bool; deadline : Z }.

Definition context_WithTimeout (w : world) (d : Z) : timedContext :=
  {| parentDone := cancelled w; deadline := clock w + d |}.

(** [http.Server.Shutdown]: stop listening, then wait until the open
    connections are idle or the context is done, whichever is first. *)
Definition Server_Shutdown (timedCtx : timedContext) (w : world) : world :=
  let patience := if parentDone timedCtx then 0 else Z.max 0 (deadline timedCtx - clock w) in
  let wait := Z.min (Z.max 0 (busy w)) patience in
  {| clock := clock w + wait;
     cancelled := cancelled w;
     inShutdown := true;
     busy := Z.max 0 (busy w) - wait |}.

Definition cancelCtx (w : world) : world :=
  {| clock := clock w; cancelled := true; inShutdown := inShutdown w; busy := busy w |}.

Definition onClose (w : world) : world :=
  let timedCtx := context_WithTimeout w (time_Second * webServerShutdownTimeoutSecs) in
  cancelCtx (Server_Shutdown timedCtx w).

(** [ListenAndServe] / [ListenAndServeTLS] on the address. *)
Variable ListenAndServe : string -> bool -> goerror.

Definition OpenWebServer (address endpoint : string) (ssl : bool) : opened + error :=
  match openEventSource WithCancel (Some onClose) with
  | inr e => inr e
  | inl res =>
      inl {| producer := serveGoroutine (ListenAndServe address ssl); instance := res |}
  end.

End Open.

(** ** Lifecycle *)

Definition Close (e : eventSource) (w : world) : world :=
match cancel e with
| Some f => f w
| None => w
end.

(** ** Funnel / batcher: [NextBatch] *)

(** The moment a [select] of [NextBatch] is evaluated: the clock, what a
    receive on each channel would yield ([None]: it would block), whether
    [cancelCtx] has been called, and the number the runtime uses to choose
    among the cases that can proceed. *)
Record snapshot := {
  now : Z;
  eventChan : option (recv auditEvent);
  cancelCtxCalled : bool;
  errorChan : option (recv goerror);
  pick : nat
}.

(** The four cases of the [select], in source order. *)
Inductive selectCase :=
| CaseEvent (r : recv auditEvent)
| CaseTimeout
| CaseDone
| CaseError (r : recv goerror).

(** The cases that can proceed; [timeout] is the instant at which the
    channel of [time.After] delivers. *)
Definition ready (ctx : context) (timeout : Z) (s : snapshot) : list selectCase :=
  match eventChan s with
  | Some r => [CaseEvent r]
  | None => []
  end
  ++ (if timeout <=? now s then [CaseTimeout] else [])
  ++ (if ctx_Done ctx (cancelCtxCalled s) then [CaseDone] else [])
  ++ match errorChan s with
     | Some r => [CaseError r]
     | None => []
     end.

(** Go's [select]: one of the cases that can proceed, [None] when the
    goroutine stays parked. *)
Definition select (ctx : context) (timeout : Z) (s : snapshot) : option selectCase :=
  let cases := ready ctx timeout s in
  cases !! (pick s mod length cases)%nat.

(** How a call ends: it returns, it is still parked in the [select] when
    the observed moments end, or it indexes the batch out of range. *)
Inductive outcome :=
| Return (n : nat) (err : goerror) (e : eventSource) (evts : EventWriters) (log : list string)
| Parked
| Panic.

Section Batcher.

(** [Value.MarshalTo(nil)]. *)
Variable MarshalTo : Value -> bytes.

(** [evts.Get(i).Writer().Write(data)]: the slot afterwards and the error. *)
Variable Writer_Write : EventWriter -> bytes -> EventWriter * goerror.

Variable plugin : Plugin.

Definition droppedMsg (data : bytes) : string :=
  "dropped event larger than maxEventSize: size=" +:+ fmt_d (len data).

(** The [for i < evts.Len()] loop. [timeout] is created once, before the
    loop, and every iteration selects on that same channel. *)
Fixpoint batchLoop (e : eventSource) (timeout : Z) (i : nat) (evts : EventWriters)
  (log : list string) (env : list snapshot) {struct env} : outcome :=
  if (length evts <=? i)%nat then Return i None e evts log
  else
    match env with
    | [] => Parked
    | s :: env' =>
        match select (ctx e) timeout s with
        | None => batchLoop e timeout i evts log env'
        | Some (CaseEvent Closed) => Return i (Some ErrEOF) (set_eof e) evts log
        | Some (CaseEvent (Recv ev)) =>
            let data := MarshalTo (Data ev) in
            if int (MaxEventSize (Config plugin)) <? len data then
              batchLoop e timeout i evts (log ++ [droppedMsg data]) env'
            else
              match evts !! i with
              | None => Panic
              | Some w =>
                  match Writer_Write w data with
                  | (w', Some err) => Return i (Some err) e (<[i:=w']> evts) log
                  | (w', None) =>
                      batchLoop e timeout (S i)
                        (<[i:=SetTimestamp w' (uint64 (UnixNano (Timestamp ev)))]> evts)
                        log env'
                  end
              end
        | Some CaseTimeout => Return i (Some ErrTimeout) e evts log
        | Some CaseDone => Return i (Some ErrEOF) (set_eof e) evts log
        | Some (CaseError Closed) => Return i (Some ErrEOF) (set_eof e) evts log
        | Some (CaseError (Recv err)) => Return i err (set_eof e) evts log
        end
    end.

(** [NextBatch], entered when the clock shows [start]. *)
Definition NextBatch (e : eventSource) (evts : EventWriters) (start : Z)
  (env : list snapshot) : outcome :=
  if eof e then Return 0 (Some ErrEOF) e evts []
  else batchLoop e (start + defaultEventTimeout) 0 evts [] env.

(** A sequence of calls on the same source, each with its own start time
    and moments; the batch is handed over as the previous call left it. *)
Fixpoint pulls (e : eventSource) (evts : EventWriters) (calls : list (Z * list snapshot))
  : list outcome :=
  match calls with
  | [] => []
  | (start, env) :: calls' =>
      let r := NextBatch e evts start env in
      r :: match r with
           | Return _ _ e' evts' _ => pulls e' evts' calls'
           | _ => []
           end
  end.

End Batcher.

(** ** Shapes named by the specification *)

(** A valid "Event" object whose [stageTimestamp] parses to [t]. *)
Definition validEvent (time_Parse : string -> Time + error) (item : Value) (t : Time) : Prop :=
  exists s,
    Get item "kind" = Some (Str "Event") /\
    Get item "stageTimestamp" = Some (Str s) /\
    time_Parse s = inl t.

(** A value of unrecognized shape: not an array, and without a string
    [kind], or with a [kind] other than "Event" and "EventList". *)
Definition unrecognized (u : Value) : Prop :=
  match u with
  | Array _ => False
  | _ =>
      match GetStringBytes (Get u "kind") with
      | None => True
      | Some k => k <> "Event" /\ k <> "EventList"
      end
  end.

(** The record made of a value and its timestamp, and the two ways an
    iteration of the parsing goroutine on a message ends. *)
Definition record (item : Value) (t : Time) : auditEvent :=
  {| Data := item; Timestamp := t |}.

Definition emits (values : list auditEvent) : iteration :=
  {| toEventChan := values; toErrorChan := []; printed := []; continues := true |}.

Definition discards (err : error) : iteration :=
  {| toEventChan := []; toErrorChan := []; printed := [Error err]; continues := true |}.

(** ** The file pipeline end to end

    The channels between the scanning goroutine, the parsing goroutine
    and [NextBatch] are unbuffered and the context of a file source is
    never done, so each goroutine meets the operations of the one before
    it in the order they were issued. *)

Section Pipeline.

Variable emptyArrayIsNil : bool.
Variable time_Parse : string -> Time + error.
Variable ParseBytes : bytes -> Value + error.

(** The case of the parsing goroutine's [select] that a producer
    operation resolves. *)
Definition asSelect (op : chanOp) : normSelect :=
  match op with
  | SendBytes b => FromEventChan (Recv b)
  | SendError e => FromErrorChan (Recv e)
  | CloseErrorChan => FromErrorChan Closed
  | CloseEventChan => FromEventChan Closed
  end.

(** The iterations of the parsing goroutine, up to the one that returns. *)
Fixpoint normalizerGoroutine (ops : list chanOp) : list iteration :=
  match ops with
  | [] => []
  | op :: ops' =>
      let it := normalizerIteration emptyArrayIsNil time_Parse ParseBytes (asSelect op) in
      it :: (if continues it then normalizerGoroutine ops' else [])
  end.

(** What the parsing goroutine sends on [newEventChan] (left) and on
    [newErrorChan] (right), in order. *)
Definition downstream (its : list iteration) : list (auditEvent + goerror) :=
  flat_map (fun it => map inl (toEventChan it) ++ map inr (toErrorChan it)) its.

(** The moment at which [NextBatch] can receive the item and nothing
    else can proceed. *)
Definition offer (t : Z) (item : auditEvent + goerror) : snapshot :=
  match item with
  | inl ev =>
      {| now := t; eventChan := Some (Recv ev); cancelCtxCalled := false;
         errorChan := None; pick := 0 |}
  | inr err =>
      {| now := t; eventChan := None; cancelCtxCalled := false;
         errorChan := Some (Recv err); pick := 0 |}
  end.

End Pipeline.

(** ** Library behaviour used in the examples *)

(** A [time.Parse] that knows the listed timestamps. *)
Fixpoint parseListed (known : list (string * Z)) (s : string) : Time + error :=
  match known with
  | [] => inr (New "cannot parse time")
  | (text, nanos) :: known' =>
      if String.eqb text s then inl {| UnixNano := nanos |} else parseListed known' s
  end.

Definition DQ : string := String.String (Ascii.ascii_of_nat 34) EmptyString.

Fixpoint join (sep : string) (parts : list string) : string :=
  match parts with
  | [] => ""
  | [p] => p
  | p :: parts' => p +:+ sep +:+ join sep parts'
  end.

(** The compact serialisation fastjson produces, for values whose
    strings and keys need no escaping. *)
Fixpoint marshal (v : Value) : bytes :=
  match v with
  | Null => "null"
  | VTrue => "true"
  | VFalse => "false"
  | Number raw => raw
  | Str s => DQ +:+ s +:+ DQ
  | Array a => "[" +:+ join "," (map marshal a) +:+ "]"
  | Object kvs =>
      "{" +:+ join "," (map (fun kv => let '(k, x) := kv in DQ +:+ k +:+ DQ +:+ ":" +:+ marshal x) kvs)
      +:+ "}"
  end.

(** A slot writer that keeps what it is given. *)
Definition storeWrite (w : EventWriter) (data : bytes) : EventWriter * goerror :=
  ({| written := data; timestamp := timestamp w |}, None).

(** A batch of [n] empty slots. *)
Definition emptySlots (n : nat) : EventWriters :=
  replicate n {| written := ""; timestamp := 0 |}.

Definition newSlots (size dataSize : Z) : EventWriters + error :=
  if (0 <? size) && (0 <? dataSize) then inl (emptySlots (Z.to_nat size))
  else inr (New "invalid batch size").

(** The lines the scanning goroutine passes on. *)
Definition nonEmpty (line : string) : bool := 0 <? len line.

(** The cases by which a pull observes the end of the stream, and the
    error the pull returns for each of them. *)
Definition endsStream (c : selectCase) : bool :=
  match c with
  | CaseEvent Closed => true
  | CaseDone => true
  | CaseError _ => true
  | _ => false
  end.

Definition endError (c : selectCase) : goerror :=
  match c with
  | CaseError (Recv err) => err
  | _ => Some ErrEOF
  end.

(** A moment at which only the timer, or nothing at all, can proceed. *)
Definition quiet (t : Z) : snapshot :=
  {| now := t; eventChan := None; cancelCtxCalled := false; errorChan := None; pick := 0 |}.

(** ** Values used in the examples *)

Definition ts0 : string := "2023-01-01T00:00:00.000000000Z".
Definition ts1 : string := "2023-01-01T00:00:01.5Z".

Definition knownTimes : list (string * Z) :=
  [(ts0, 1672531200000000000); (ts1, 1672531201500000000)].

Definition t0 : Time := {| UnixNano := 1672531200000000000 |}.
Definition t1 : Time := {| UnixNano := 1672531201500000000 |}.

Definition event0 : Value := Object [("kind", Str "Event"); ("stageTimestamp", Str ts0)].
Definition event1 : Value :=
  Object [("kind", Str "Event"); ("verb", Str "get"); ("stageTimestamp", Str ts1)].
Definition eventList : Value :=
  Object [("kind", Str "EventList"); ("items", Array [event0; event1])].
Definition junk : Value := Object [("foo", Number "1")].

Definition plugin0 : Plugin :=
  {| Config := {| SSLCertificate := ""; MaxEventSize := 70; WebhookMaxBatchSize := 16 |} |}.

Definition world0 : world :=
  {| clock := 1000; cancelled := false; inShutdown := false; busy := 7000000000 |}.

(** A file whose fourth line is longer than the scanner's buffer: [Scan]
    yields the lines before it and then stops with [bufio.ErrTooLong]. *)
Definition tornFile : File :=
  {| lines := ["[]"; ""; "[]"]; scanErr := Some (New "bufio.Scanner: token too long") |}.

Definition openTorn (path : string) : File * goerror := (tornFile, None).

Definition listenOk (address : string) (ssl : bool) : goerror := Some ErrServerClosed.

Definition parseAs (v : Value) (msg : bytes) : Value + error := inl v.

(** The sources the two producers open with a batch of four slots. *)
Definition fileOpened : opened :=
  {| producer := [SendBytes "[]"; SendBytes "[]"; SendError None; CloseErrorChan; CloseEventChan];
     instance := {| events := emptySlots 4; ctx := Background; cancel := None; eof := false |} |}.

Definition webOpened : opened :=
  {| producer := [CloseErrorChan];
     instance :=
       {| events := emptySlots 4; ctx := WithCancel; cancel := Some onClose; eof := false |} |}.

Definition closedEvents : snapshot :=
  {| now := 5; eventChan := Some Closed; cancelCtxCalled := false; errorChan := None; pick := 0 |}.

Definition getRequest : Request :=
  {| Method := "GET"; ContentType := "text/plain"; Body := "[]"; BodyErr := None |}.
Definition textRequest : Request :=
  {| Method := "POST"; ContentType := "text/plain"; Body := "[]"; BodyErr := None |}.
Definition largeRequest : Request :=
  {| Method := "POST"; ContentType := "application/json; charset=utf-8";
     Body := "[1,2,3,4,5,6,7,8,9]"; BodyErr := None |}.
Definition brokenRequest : Request :=
  {| Method := "POST"; ContentType := "application/json";
     Body := "[1,2"; BodyErr := Some (New "unexpected EOF") |}.
Definition goodRequest : Request :=
  {| Method := "POST"; ContentType := "application/json"; Body := "[]"; BodyErr := None |}.

(** ** [Open]: the choice of the producer *)

(** The fields of [url.URL] that [Open] reads. *)
Record URL := { Scheme : string; Host : string; Path : string }.

Section OpenDispatch.

Variable k : Plugin.
Variable DefaultBatchSize : Z.
Variable NewEventWriters : Z -> Z -> EventWriters + error.
Variable os_Open : string -> File * goerror.
Variable ListenAndServe : string -> bool -> goerror.

(** [url.Parse]. *)
Variable url_Parse : string -> URL + error.

Definition Open (params : string) : opened + error :=
  match url_Parse params with
  | inr err => inr err
  | inl u =>
      if String.eqb (Scheme u) "http" then
        OpenWebServer k DefaultBatchSize NewEventWriters ListenAndServe (Host u) (Path u) false
      else if String.eqb (Scheme u) "https" then
        OpenWebServer k DefaultBatchSize NewEventWriters ListenAndServe (Host u) (Path u) true
      else if String.eqb (Scheme u) "" then
        OpenFilePath k DefaultBatchSize NewEventWriters os_Open params
      else
        inr (New ("scheme " +:+ DQ +:+ Scheme u +:+ DQ +:+ " is not supported"))
  end.

End OpenDispatch.

(** ** Notions used to state what the components do *)

(** The values of a message that are not arrays, in depth-first order:
    what remains once every level of array nesting is removed. *)
Fixpoint leaves (v : Value) : list Value :=
  match v with
  | Array a => flat_map leaves a
  | _ => [v]
  end.

(** The error of the first value of a list that has one under [rec]. *)
Fixpoint firstError (rec : Value -> list auditEvent * goerror) (l : list Value) : goerror :=
  match l with
  | [] => None
  | v :: l' =>
      match (rec v).2 with
      | Some e => Some e
      | None => firstError rec l'
      end
  end.

(** An item whose [stageTimestamp] parses to [t], whatever else it holds. *)
Definition stamped (time_Parse : string -> Time + error) (item : Value) (t : Time) : Prop :=
  exists s, Get item "stageTimestamp" = Some (Str s) /\ time_Parse s = inl t.

(** The slot a delivered record leaves behind. *)
Definition filled (MarshalTo : Value -> bytes)
  (Writer_Write : EventWriter -> bytes -> EventWriter * goerror)
  (w : EventWriter) (ev : auditEvent) : EventWriter :=
  SetTimestamp (Writer_Write w (MarshalTo (Data ev))).1 (uint64 (UnixNano (Timestamp ev))).

(** A record that passes the size test of [NextBatch]. *)
Definition fits (MarshalTo : Value -> bytes) (plugin : Plugin) (ev : auditEvent) : Prop :=
  len (MarshalTo (Data ev)) <= int (MaxEventSize (Config plugin)).

#[global] Instance fits_dec (MarshalTo : Value -> bytes) (plugin : Plugin) (ev : auditEvent) :
  Decision (fits MarshalTo plugin ev).
Proof. unfold fits. apply _. Defined.

(** The log lines of the records that do not pass it. *)
Definition dropLog (MarshalTo : Value -> bytes) (plugin : Plugin) (evs : list auditEvent)
  : list string :=
  map (fun ev => droppedMsg (MarshalTo (Data ev)))
      (filter (fun ev => ~ fits MarshalTo plugin ev) evs).

(** ** More values for the examples *)

Definition parseUrl (params : string) : URL + error :=
  if String.prefix "http://" params then
    inl {| Scheme := "http"; Host := "0.0.0.0:9765"; Path := "/k8s-audit" |}
  else if String.prefix "ftp://" params then
    inl {| Scheme := "ftp"; Host := "example.org"; Path := "/audit.log" |}
  else if String.prefix ":" params then inr (New "missing protocol scheme")
  else inl {| Scheme := ""; Host := ""; Path := params |}.

Definition bareItem : Value := Object [("stageTimestamp", Str ts1); ("verb", Str "list")].
Definition staleEvent : Value := Object [("kind", Str "Event"); ("stageTimestamp", Str "yesterday")].
Definition headlessEvent : Value := Object [("kind", Str "Event"); ("verb", Str "get")].

Definition listenBusy (address : string) (ssl : bool) : goerror :=
  Some (New "listen tcp 0.0.0.0:9765: bind: address already in use").

Definition numericStamp : Value :=
  Object [("kind", Str "Event"); ("stageTimestamp", Number "1672531200")].

Definition nested : Value := Array [event0; Array [Array [event1]; eventList]].
Definition spoiled : Value := Array [event0; Array [junk; event1]].

Definition oddItem : Value := Object [("kind", Str "EventList"); ("stageTimestamp", Str ts0)].
Definition mixedList : Value :=
  Object [("kind", Str "EventList"); ("items", Array [bareItem; oddItem; event0])].
Definition brokenList : Value :=
  Object [("kind", Str "EventList"); ("items", Array [event0; headlessEvent; event1])].
Definition emptyList : Value := Object [("kind", Str "EventList"); ("items", Str "none")].

(** A [ParseBytes] that rejects the message "{" and reads any other one
    as [event0]. *)
Definition parseUnlessTorn (msg : bytes) : Value + error :=
  if String.eqb msg "{" then inr (New "unexpected end of JSON") else inl event0.

Definition wholeFile : File := {| lines := ["[]"; ""; "[]"]; scanErr := None |}.
Definition openWhole (path : string) : File * goerror := (wholeFile, None).

Definition wholeOpened : opened :=
  {| producer := [SendBytes "[]"; SendBytes "[]"; CloseErrorChan; CloseEventChan];
     instance := {| events := emptySlots 4; ctx := Background; cancel := None; eof := false |} |}.

Definition busyOpened : opened :=
  {| producer :=
       [SendError (Some (New "listen tcp 0.0.0.0:9765: bind: address already in use"));
        CloseErrorChan];
     instance :=
       {| events := emptySlots 4; ctx := WithCancel; cancel := Some onClose; eof := false |} |}.

Definition afterCancel : snapshot :=
  {| now := 5; eventChan := None; cancelCtxCalled := true; errorChan := None; pick := 3 |}.

(** * Properties *)

(** ** Normalizer *)

Section NormalizerFacts.

Variable emptyArrayIsNil : bool.
Variable time_Parse : string -> Time + error.
Variable ParseBytes : bytes -> Value + error.

Local Abbreviation parseJSONAuditEvent := (parseJSONAuditEvent time_Parse).
Local Abbreviation parseItems := (parseItems time_Parse).
Local Abbreviation parseKind := (parseKind emptyArrayIsNil time_Parse).
Local Abbreviation parseJSONMessage := (parseJSONMessage emptyArrayIsNil time_Parse).
Local Abbreviation onParsed := (onParsed emptyArrayIsNil time_Parse).
Local Abbreviation onMessage := (onMessage emptyArrayIsNil time_Parse ParseBytes).
Local Abbreviation normalize := (normalize emptyArrayIsNil time_Parse ParseBytes).
Local Abbreviation validEvent := (validEvent time_Parse).

Lemma parseJSONMessage_array (a : list Value) :
  parseJSONMessage (Array a) = rangeArray parseJSONMessage a [].
Proof. reflexivity. Qed.

Lemma parseJSONMessage_object (kvs : list (string * Value)) :
  parseJSONMessage (Object kvs) = parseKind (Object kvs).
Proof. reflexivity. Qed.

Lemma onParsed_ok (v : Value) (values : list auditEvent) :
  parseJSONMessage v = (values, None) -> onParsed (inl v) = emits values.
Proof. intros H. unfold onParsed, parseJSONMessagePtr. now rewrite H. Qed.

Lemma onParsed_err (v : Value) (values : list auditEvent) (err : error) :
  parseJSONMessage v = (values, Some err) -> onParsed (inl v) = discards err.
Proof. intros H. unfold onParsed, parseJSONMessagePtr. now rewrite H. Qed.

Lemma parseJSONAuditEvent_valid (item : Value) (t : Time) :
  validEvent item t -> parseJSONAuditEvent item = inl (record item t).
Proof.
  intros (s & _ & Hts & Hparse).
  unfold parseJSONAuditEvent. rewrite Hts. simpl. now rewrite Hparse.
Qed.

Lemma parseItems_valid (items : list Value) (ts : list Time) :
  Forall2 validEvent items ts ->
  forall res, parseItems items res = (res ++ zip_with record items ts, None).
Proof.
  induction 1 as [|item t items ts Hv _ IH]; intros res; simpl.
  - now rewrite app_nil_r.
  - rewrite (parseJSONAuditEvent_valid _ _ Hv), IH, <- app_assoc. reflexivity.
Qed.

(** The array loop when no element fails: every element contributes, in
    array order. *)
Lemma rangeArray_all_ok (rec : Value -> list auditEvent * goerror) (vs : list Value) :
  Forall (fun v => (rec v).2 = None) vs ->
  forall res, rangeArray rec vs res = (res ++ flat_map (fun v => (rec v).1) vs, None).
Proof.
  induction 1 as [|v vs Hv _ IH]; intros res; simpl.
  - now rewrite app_nil_r.
  - destruct (rec v) as [values [e|]]; simpl in *; [discriminate|].
    now rewrite IH, <- app_assoc.
Qed.

(** The array loop at the first element that fails: it returns what the
    elements before it gave, and the error. *)
Lemma rangeArray_first_error (rec : Value -> list auditEvent * goerror)
  (l1 l2 : list Value) (u : Value) (r : list auditEvent) (err : error) :
  Forall (fun v => (rec v).2 = None) l1 ->
  rec u = (r, Some err) ->
  forall res,
    rangeArray rec (l1 ++ u :: l2) res = (res ++ flat_map (fun v => (rec v).1) l1, Some err).
Proof.
  intros Hok Hu. induction Hok as [|v vs Hv _ IH]; intros res; simpl.
  - now rewrite Hu, app_nil_r.
  - destruct (rec v) as [values [e|]]; simpl in *; [discriminate|].
    now rewrite IH, <- app_assoc.
Qed.

Lemma unrecognized_error (u : Value) :
  unrecognized u -> parseJSONMessage u = notRecognized.
Proof.
  intros H. destruct u as [ | | | raw | s | a | kvs]; try reflexivity; [destruct H|].
  simpl in H. rewrite parseJSONMessage_object. unfold parseKind. simpl.
  destruct (Object_Get kvs "kind") as [[]|]; simpl in *; try reflexivity.
  destruct H as [HE HL].
  apply String.eqb_neq in HE, HL. now rewrite HL, HE.
Qed.

(** C5: an object with kind "Event" and a [stageTimestamp] string that
    [time.Parse] accepts yields exactly one record, whose payload is the
    object and whose timestamp is the parsed value; the parsing goroutine
    sends that record and logs nothing. *)
Theorem C5_event_yields_one_record (kvs : list (string * Value)) (s : string) (t : Time) :
  Object_Get kvs "kind" = Some (Str "Event") ->
  Object_Get kvs "stageTimestamp" = Some (Str s) ->
  time_Parse s = inl t ->
  parseJSONMessage (Object kvs) = ([record (Object kvs) t], None) /\
  onParsed (inl (Object kvs)) = emits [record (Object kvs) t] /\
  (forall msg, ParseBytes msg = inl (Object kvs) -> normalize msg = [record (Object kvs) t]).
Proof.
  intros Hkind Hts Hparse.
  assert (Hmsg : parseJSONMessage (Object kvs) = ([record (Object kvs) t], None)).
  { rewrite parseJSONMessage_object. unfold parseKind. simpl. rewrite Hkind. simpl.
    rewrite (parseJSONAuditEvent_valid (Object kvs) t); [reflexivity|].
    exists s. simpl. auto. }
  split; [exact Hmsg|]. split.
  - now apply onParsed_ok.
  - intros msg Hmsg'. unfold normalize, onMessage.
    rewrite Hmsg'. now rewrite (onParsed_ok _ _ Hmsg).
Qed.

(** C6: an object with kind "EventList" whose [items] array holds N valid
    Event objects yields exactly N records, the i-th one carrying the i-th
    item and its parsed timestamp. *)
Theorem C6_event_list_yields_items_in_order
  (kvs : list (string * Value)) (items : list Value) (ts : list Time) :
  Object_Get kvs "kind" = Some (Str "EventList") ->
  Object_Get kvs "items" = Some (Array items) ->
  Forall2 validEvent items ts ->
  toEventChan (onParsed (inl (Object kvs))) = zip_with record items ts /\
  length (toEventChan (onParsed (inl (Object kvs)))) = length items /\
  map Data (toEventChan (onParsed (inl (Object kvs)))) = items /\
  map Timestamp (toEventChan (onParsed (inl (Object kvs)))) = ts.
Proof.
  intros Hkind Hitems Hvalid.
  assert (Hout : toEventChan (onParsed (inl (Object kvs))) = zip_with record items ts).
  { pose proof (parseItems_valid _ _ Hvalid []) as Hloop.
    unfold onParsed, parseJSONMessagePtr.
    rewrite parseJSONMessage_object. unfold parseKind. simpl.
    rewrite Hkind, Hitems. simpl.
    destruct items as [|item items].
    - inversion Hvalid; subst. destruct emptyArrayIsNil; reflexivity.
    - rewrite Hloop. reflexivity. }
  rewrite Hout. clear Hout Hkind Hitems.
  induction Hvalid as [|item t items ts _ _ IH]; simpl; [auto|].
  destruct IH as (_ & Hlen & Hdata & Htime).
  repeat split; congruence.
Qed.

(** C10: a message that parses to the empty array gives no record and no
    error, and nothing is logged; an object of unrecognized shape, by
    contrast, is logged as not recognized. *)
Theorem C10_empty_array_is_silent :
  parseJSONMessage (Array []) = ([], None) /\
  onParsed (inl (Array [])) = emits [] /\
  onParsed (inl (Object [])) = discards (New "data not recognized as a k8s audit event").
Proof. repeat split. Qed.

(** C3 (amended): in a bare array an element of unrecognized shape stops
    the processing exactly as any other element error does: the elements
    after it are not looked at, [parseJSONMessage] returns the error with
    the records of the elements before it, and the parsing goroutine logs
    the error and sends no record of that message. *)
Theorem C3_unrecognized_element_discards_message (l1 l2 : list Value) (u : Value) :
  Forall (fun v => (parseJSONMessage v).2 = None) l1 ->
  unrecognized u ->
  parseJSONMessage (Array (l1 ++ u :: l2)) =
    (flat_map (fun v => (parseJSONMessage v).1) l1,
     Some (New "data not recognized as a k8s audit event")) /\
  onParsed (inl (Array (l1 ++ u :: l2))) =
    discards (New "data not recognized as a k8s audit event").
Proof.
  intros Hok Hu.
  assert (H : parseJSONMessage (Array (l1 ++ u :: l2)) =
              (flat_map (fun v => (parseJSONMessage v).1) l1,
               Some (New "data not recognized as a k8s audit event"))).
  { rewrite parseJSONMessage_array.
    now rewrite (rangeArray_first_error _ l1 l2 u [] _ Hok (unrecognized_error u Hu)). }
  split; [exact H|]. now apply (onParsed_err _ _ _ H).
Qed.

End NormalizerFacts.

(** ** Funnel / batcher *)

Lemma int_le_uint64 (x : Z) : 0 <= x < 2 ^ 64 -> int x <= x.
Proof.
  intros Hx. unfold int, int64. rewrite Z.mod_small by lia.
  destruct (x <? 2 ^ 63); lia.
Qed.

(** Only the timer can proceed: the [select] takes the timeout case. *)
Lemma select_timer_only (c : context) (timeout : Z) (s : snapshot) :
  eventChan s = None -> errorChan s = None -> ctx_Done c (cancelCtxCalled s) = false ->
  timeout <= now s ->
  select c timeout s = Some CaseTimeout.
Proof.
  intros He Hr Hc Ht. unfold select, ready. rewrite He, Hr, Hc.
  rewrite (proj2 (Z.leb_le _ _) Ht). cbn [app length]. now rewrite Nat.mod_1_r.
Qed.

(** Nothing can proceed before the timer is due on a quiet moment. *)
Lemma select_quiet_early (c : context) (timeout t : Z) :
  t < timeout -> select c timeout (quiet t) = None.
Proof.
  intros Ht. unfold select, ready, quiet. simpl.
  rewrite (proj2 (Z.leb_gt _ _) Ht). now destruct c.
Qed.

(** The timeout case is only taken once the timer is due. *)
Lemma select_timeout_due (c : context) (timeout : Z) (s : snapshot) :
  select c timeout s = Some CaseTimeout -> timeout <= now s.
Proof.
  unfold select. intros H. apply list_elem_of_lookup_2 in H.
  unfold ready in H. rewrite !elem_of_app in H.
  destruct H as [H|[H|[H|H]]].
  - destruct (eventChan s); [apply list_elem_of_singleton in H; discriminate | inversion H].
  - destruct (Z.leb_spec timeout (now s)); [assumption | inversion H].
  - destruct (ctx_Done c (cancelCtxCalled s));
      [apply list_elem_of_singleton in H; discriminate | inversion H].
  - destruct (errorChan s); [apply list_elem_of_singleton in H; discriminate | inversion H].
Qed.

Section BatcherFacts.

Variable MarshalTo : Value -> bytes.
Variable Writer_Write : EventWriter -> bytes -> EventWriter * goerror.
Variable plugin : Plugin.

Local Abbreviation batchLoop := (batchLoop MarshalTo Writer_Write plugin).
Local Abbreviation NextBatch := (NextBatch MarshalTo Writer_Write plugin).
Local Abbreviation pulls := (pulls MarshalTo Writer_Write plugin).

(** One iteration of the loop while the batch has a free slot. *)
Lemma batchLoop_unfold (e : eventSource) (timeout : Z) (i : nat) (evts : EventWriters)
  (log : list string) (s : snapshot) (env : list snapshot) :
  (i < length evts)%nat ->
  batchLoop e timeout i evts log (s :: env) =
  match select (ctx e) timeout s with
  | None => batchLoop e timeout i evts log env
  | Some (CaseEvent Closed) => Return i (Some ErrEOF) (set_eof e) evts log
  | Some (CaseEvent (Recv ev)) =>
      let data := MarshalTo (Data ev) in
      if int (MaxEventSize (Config plugin)) <? len data then
        batchLoop e timeout i evts (log ++ [droppedMsg data]) env
      else
        match evts !! i with
        | None => Panic
        | Some w =>
            match Writer_Write w data with
            | (w', Some err) => Return i (Some err) e (<[i:=w']> evts) log
            | (w', None) =>
                batchLoop e timeout (S i)
                  (<[i:=SetTimestamp w' (uint64 (UnixNano (Timestamp ev)))]> evts) log env
            end
        end
  | Some CaseTimeout => Return i (Some ErrTimeout) e evts log
  | Some CaseDone => Return i (Some ErrEOF) (set_eof e) evts log
  | Some (CaseError Closed) => Return i (Some ErrEOF) (set_eof e) evts log
  | Some (CaseError (Recv err)) => Return i err (set_eof e) evts log
  end.
Proof.
  intros Hi. simpl. now rewrite (proj2 (Nat.leb_gt _ _) Hi).
Qed.

(** A full batch returns at once, whatever the moments are. *)
Lemma batchLoop_full (e : eventSource) (timeout : Z) (i : nat) (evts : EventWriters)
  (log : list string) (env : list snapshot) :
  (length evts <= i)%nat -> batchLoop e timeout i evts log env = Return i None e evts log.
Proof.
  intros Hi. destruct env; simpl; now rewrite (proj2 (Nat.leb_le _ _) Hi).
Qed.

(** Moments at which nothing can proceed leave the call where it is. *)
Lemma batchLoop_parked (e : eventSource) (timeout : Z) (i : nat) (evts : EventWriters)
  (log : list string) (idle env : list snapshot) :
  Forall (fun s => select (ctx e) timeout s = None) idle ->
  batchLoop e timeout i evts log (idle ++ env) = batchLoop e timeout i evts log env.
Proof.
  induction 1 as [|s idle Hs _ IH]; [reflexivity|].
  destruct (Nat.le_gt_cases (length evts) i) as [Hfull|Hfree].
  - now rewrite !batchLoop_full.
  - rewrite <- app_comm_cons, batchLoop_unfold, Hs by assumption. exact IH.
Qed.

Lemma pulls_cons (e : eventSource) (evts : EventWriters) (start : Z) (env : list snapshot)
  (calls : list (Z * list snapshot)) :
  pulls e evts ((start, env) :: calls) =
  NextBatch e evts start env ::
  match NextBatch e evts start env with
  | Return _ _ e' evts' _ => pulls e' evts' calls
  | _ => []
  end.
Proof. reflexivity. Qed.

Lemma pulls_exhausted (e : eventSource) (evts : EventWriters) (calls : list (Z * list snapshot)) :
  eof e = true ->
  pulls e evts calls = map (fun _ => Return 0 (Some ErrEOF) e evts []) calls.
Proof.
  intros He. induction calls as [|[start env] calls IH]; [reflexivity|].
  rewrite pulls_cons. unfold NextBatch. rewrite He. now rewrite IH.
Qed.

(** C2: each way a pull observes the end of the stream (closed event
    channel, done context, received or closed error channel) sets [eof];
    and once [eof] is set every later pull returns [(0, ErrEOF)] at once,
    whatever the channels hold, leaving the source and the batch as they
    were: nothing more is delivered. *)
Theorem C2_exhaustion_is_terminal (e : eventSource) (evts : EventWriters) :
  (forall timeout i log s env c,
      (i < length evts)%nat ->
      select (ctx e) timeout s = Some c ->
      endsStream c = true ->
      batchLoop e timeout i evts log (s :: env) = Return i (endError c) (set_eof e) evts log /\
      eof (set_eof e) = true) /\
  (eof e = true ->
   (forall start env, NextBatch e evts start env = Return 0 (Some ErrEOF) e evts []) /\
   (forall calls, pulls e evts calls = map (fun _ => Return 0 (Some ErrEOF) e evts []) calls)).
Proof.
  split.
  - intros timeout i log s env c Hi Hsel Hend.
    rewrite batchLoop_unfold, Hsel by assumption.
    destruct c as [[|ev]| | |[|err]]; try discriminate; split; reflexivity.
  - intros He. split.
    + intros start env. unfold NextBatch. now rewrite He.
    + intros calls. now apply pulls_exhausted.
Qed.

(** C4: when the [select] is resolved by the timer of the call (due 30 ms
    after the call began, and not before), the call returns the count
    filled so far with [ErrTimeout] and leaves [eof] unset; with nothing
    received at all that is [(0, ErrTimeout)]; and a later pull on the
    same source still delivers a record that arrives. *)
Theorem C4_timeout_returns_filled_count (e : eventSource) (evts : EventWriters)
  (start : Z) (i : nat) (log : list string) (idle : list snapshot) (s : snapshot)
  (env : list snapshot) :
  (i < length evts)%nat ->
  Forall (fun s' => select (ctx e) (start + 30 * 1000000) s' = None) idle ->
  select (ctx e) (start + 30 * 1000000) s = Some CaseTimeout ->
  start + 30 * 1000000 <= now s /\
  batchLoop e (start + defaultEventTimeout) i evts log (idle ++ s :: env)
    = Return i (Some ErrTimeout) e evts log /\
  (eof e = false ->
   NextBatch e evts start (idle ++ s :: env) = Return 0 (Some ErrTimeout) e evts [] /\
   forall start' s1 s2 ev w w',
     select (ctx e) (start' + defaultEventTimeout) s1 = Some (CaseEvent (Recv ev)) ->
     len (MarshalTo (Data ev)) <= int (MaxEventSize (Config plugin)) ->
     evts !! 0%nat = Some w ->
     Writer_Write w (MarshalTo (Data ev)) = (w', None) ->
     select (ctx e) (start' + defaultEventTimeout) s2 = Some CaseTimeout ->
     exists err,
       pulls e evts [(start, idle ++ s :: env); (start', [s1; s2])] =
       [Return 0 (Some ErrTimeout) e evts [];
        Return 1 err e (<[0%nat:=SetTimestamp w' (uint64 (UnixNano (Timestamp ev)))]> evts) []]).
Proof.
  intros Hi Hidle Hsel.
  change (start + 30 * 1000000) with (start + defaultEventTimeout) in *.
  split; [now apply (select_timeout_due (ctx e))|].
  assert (Hloop : forall j lg, (j < length evts)%nat ->
            batchLoop e (start + defaultEventTimeout) j evts lg (idle ++ s :: env)
            = Return j (Some ErrTimeout) e evts lg).
  { intros j lg Hj. rewrite batchLoop_parked by assumption.
    now rewrite batchLoop_unfold, Hsel. }
  split; [now apply Hloop|].
  intros He.
  assert (Hfirst : NextBatch e evts start (idle ++ s :: env)
                   = Return 0 (Some ErrTimeout) e evts []).
  { unfold NextBatch. rewrite He. apply Hloop. lia. }
  split; [exact Hfirst|].
  intros start' s1 s2 ev w w' Hs1 Hfit Hw Hwrite Hs2.
  assert (H0 : (0 < length evts)%nat) by lia.
  set (evts' := <[0%nat:=SetTimestamp w' (uint64 (UnixNano (Timestamp ev)))]> evts).
  assert (Hsecond : exists err, NextBatch e evts start' [s1; s2] = Return 1 err e evts' []).
  { unfold NextBatch. rewrite He.
    rewrite batchLoop_unfold, Hs1 by assumption. cbn zeta.
    rewrite (proj2 (Z.ltb_ge _ _) Hfit), Hw, Hwrite. fold evts'.
    destruct (Nat.le_gt_cases (length evts') 1) as [Hfull|Hfree].
    - exists None. now apply batchLoop_full.
    - exists (Some ErrTimeout). now rewrite batchLoop_unfold, Hs2. }
  destruct Hsecond as [err Hsecond]. exists err.
  now rewrite pulls_cons, Hfirst, pulls_cons, Hsecond.
Qed.

(** C7: a received record whose serialisation is longer than the
    configured [MaxEventSize] is logged and skipped: the loop goes on with
    the same slot index, the same batch and the same timer, so the rest of
    the call runs as if the record had not arrived, and the timer started
    at the beginning of the call still ends it when it falls due. *)
Theorem C7_oversized_record_is_dropped (e : eventSource) (timeout : Z) (i : nat)
  (evts : EventWriters) (log : list string) (s : snapshot) (env : list snapshot)
  (ev : auditEvent) :
  (i < length evts)%nat ->
  0 <= MaxEventSize (Config plugin) < 2 ^ 64 ->
  select (ctx e) timeout s = Some (CaseEvent (Recv ev)) ->
  MaxEventSize (Config plugin) < len (MarshalTo (Data ev)) ->
  batchLoop e timeout i evts log (s :: env)
    = batchLoop e timeout i evts (log ++ [droppedMsg (MarshalTo (Data ev))]) env /\
  (forall s2 env2,
      select (ctx e) timeout s2 = Some CaseTimeout ->
      batchLoop e timeout i evts log (s :: s2 :: env2)
      = Return i (Some ErrTimeout) e evts (log ++ [droppedMsg (MarshalTo (Data ev))])) /\
  (forall s2 env2,
      select (ctx e) timeout s2 = None ->
      batchLoop e timeout i evts log (s :: s2 :: env2)
      = batchLoop e timeout i evts (log ++ [droppedMsg (MarshalTo (Data ev))]) env2).
Proof.
  intros Hi Hrange Hsel Hbig.
  assert (Hdrop : forall rest, batchLoop e timeout i evts log (s :: rest)
                  = batchLoop e timeout i evts (log ++ [droppedMsg (MarshalTo (Data ev))]) rest).
  { intros rest. rewrite batchLoop_unfold, Hsel by assumption. cbn zeta.
    pose proof (int_le_uint64 _ Hrange) as Hint.
    now rewrite (proj2 (Z.ltb_lt _ _)) by lia. }
  split; [apply Hdrop|]. split; intros s2 env2 Hs2; rewrite Hdrop.
  - now rewrite batchLoop_unfold, Hs2.
  - now rewrite batchLoop_unfold, Hs2.
Qed.

End BatcherFacts.

(** ** Producers and lifecycle *)

Section ProducerFacts.

Variable k : Plugin.
Variable DefaultBatchSize : Z.
Variable NewEventWriters : Z -> Z -> EventWriters + error.
Variable os_Open : string -> File * goerror.
Variable ListenAndServe : string -> bool -> goerror.

Local Abbreviation OpenFilePath := (OpenFilePath k DefaultBatchSize NewEventWriters os_Open).
Local Abbreviation OpenWebServer :=
  (OpenWebServer k DefaultBatchSize NewEventWriters ListenAndServe).

Lemma OpenFilePath_inv (filePath : string) (src : opened) :
  OpenFilePath filePath = inl src ->
  (os_Open filePath).2 = None /\
  producer src = scanGoroutine None (os_Open filePath).1 /\
  ctx (instance src) = Background /\
  cancel (instance src) = None /\
  eof (instance src) = false.
Proof.
  unfold OpenFilePath, openEventSource.
  destruct (os_Open filePath) as [file [e|]]; [discriminate|].
  destruct (NewEventWriters _ _); [|discriminate].
  intros H. injection H as <-. simpl. auto.
Qed.

Lemma OpenWebServer_inv (address endpoint : string) (ssl : bool) (src : opened) :
  OpenWebServer address endpoint ssl = inl src ->
  producer src = serveGoroutine (ListenAndServe address ssl) /\
  ctx (instance src) = WithCancel /\
  cancel (instance src) = Some onClose /\
  eof (instance src) = false.
Proof.
  unfold OpenWebServer, openEventSource.
  destruct (NewEventWriters _ _); [|discriminate].
  intros H. injection H as <-. simpl. auto.
Qed.

(** What [onClose] leaves behind. *)
Lemma onClose_effect (w : world) :
  cancelled (onClose w) = true /\
  inShutdown (onClose w) = true /\
  clock w <= clock (onClose w) <= clock w + 5 * 1000000000 /\
  0 <= busy (onClose w).
Proof.
  unfold onClose, cancelCtx, Server_Shutdown, context_WithTimeout,
    time_Second, webServerShutdownTimeoutSecs. simpl.
  destruct (cancelled w); repeat split; lia.
Qed.

(** [onClose] on a context that is not yet cancelled: the shutdown
    waits for the open connections, but for 5 seconds at most. *)
Lemma onClose_grace (w : world) :
  cancelled w = false ->
  clock (onClose w) = clock w + Z.min (Z.max 0 (busy w)) (5 * 1000000000) /\
  busy (onClose w) = Z.max 0 (busy w) - Z.min (Z.max 0 (busy w)) (5 * 1000000000).
Proof.
  intros Hc.
  unfold onClose, cancelCtx, Server_Shutdown, context_WithTimeout,
    time_Second, webServerShutdownTimeoutSecs. simpl. rewrite Hc.
  split; f_equal; lia.
Qed.

Lemma onClose_again (w : world) : onClose (onClose w) = onClose w.
Proof.
  unfold onClose, cancelCtx, Server_Shutdown, context_WithTimeout. simpl.
  f_equal; lia.
Qed.

(** C8: the webhook handler checks, in this order, the method, the
    content type and the body. A method other than POST is answered with
    405; a POST whose Content-Type lacks "application/json" with 400; a
    POST whose body is longer than the configured maximum or fails to read
    with 400 and the text "bad request: <detail>", which is also logged;
    none of these sends anything on the event channel. Any other POST is
    answered with 200 and an empty body, and its body is sent once. *)
Theorem C8_webhook_handler_contract (req : Request) :
  0 <= WebhookMaxBatchSize (Config k) < 2 ^ 64 ->
  (Method req <> "POST" ->
   handler k req =
   {| response := {| status := 405; body := (Method req +:+ " method not allowed") +:+ LF |};
      enqueued := []; logged := [] |}) /\
  (Method req = "POST" ->
   Contains (ContentType req) "application/json" = false ->
   handler k req =
   {| response := {| status := 400; body := "wrong Content Type" +:+ LF |};
      enqueued := []; logged := [] |}) /\
  (Method req = "POST" ->
   Contains (ContentType req) "application/json" = true ->
   forall err,
     (WebhookMaxBatchSize (Config k) < len (Body req) /\
      err = New "http: request body too large") \/
     (len (Body req) <= int64 (WebhookMaxBatchSize (Config k)) /\ BodyErr req = Some err) ->
     handler k req =
     {| response := {| status := 400; body := ("bad request: " +:+ Error err) +:+ LF |};
        enqueued := []; logged := ["bad request: " +:+ Error err] |}) /\
  (Method req = "POST" ->
   Contains (ContentType req) "application/json" = true ->
   len (Body req) <= int64 (WebhookMaxBatchSize (Config k)) ->
   BodyErr req = None ->
   handler k req =
   {| response := {| status := 200; body := "" |}; enqueued := [Body req]; logged := [] |}).
Proof.
  intros Hrange. pose proof (int_le_uint64 _ Hrange) as Hint. unfold int in Hint.
  unfold handler. repeat split.
  - intros Hm. apply String.eqb_neq in Hm. now rewrite Hm.
  - intros Hm Hc. apply String.eqb_eq in Hm. now rewrite Hm, Hc.
  - intros Hm Hc err Hbody. apply String.eqb_eq in Hm. rewrite Hm, Hc. simpl.
    unfold ReadAll_MaxBytes. cbn zeta.
    destruct (Z.ltb_spec (int64 (WebhookMaxBatchSize (Config k))) 0);
      destruct Hbody as [[Hbig ->]|[Hfit Herr]].
    + now rewrite (proj2 (Z.ltb_lt _ _)) by lia.
    + pose proof (Nat2Z.is_nonneg (String.length (Body req))). unfold len in *. lia.
    + now rewrite (proj2 (Z.ltb_lt _ _)) by lia.
    + now rewrite (proj2 (Z.ltb_ge _ _)), Herr by lia.
  - intros Hm Hc Hfit Herr. apply String.eqb_eq in Hm. rewrite Hm, Hc. simpl.
    unfold ReadAll_MaxBytes. cbn zeta.
    destruct (Z.ltb_spec (int64 (WebhookMaxBatchSize (Config k))) 0).
    + pose proof (Nat2Z.is_nonneg (String.length (Body req))). unfold len in *. lia.
    + now rewrite (proj2 (Z.ltb_ge _ _)), Herr by lia.
Qed.

(** C9 (amended): closing a webhook source first shuts the server down
    under a context that expires 5 seconds later, and only then cancels
    the context of the source. The shutdown stops the listener and waits
    for the open connections: as long as they need, but 5 seconds at most,
    so connections that need no more than that are all idle when [Close]
    returns; the context of the source is still as it was when the
    shutdown returns, and done afterwards. Closing again changes nothing.
    A file source has no cancellation function and the background
    context: closing it does nothing, and its context is never done. *)
Theorem C9_close_by_variant (src : opened) (w : world) :
  (forall address endpoint ssl,
      OpenWebServer address endpoint ssl = inl src ->
      let grace := 5 * 1000000000 in
      let shut := Server_Shutdown (context_WithTimeout w grace) w in
      Close (instance src) w = cancelCtx shut /\
      deadline (context_WithTimeout w grace) = clock w + grace /\
      inShutdown shut = true /\
      cancelled shut = cancelled w /\
      (cancelled w = false ->
       clock (Close (instance src) w) = clock w + Z.min (Z.max 0 (busy w)) grace /\
       busy (Close (instance src) w) = Z.max 0 (busy w) - Z.min (Z.max 0 (busy w)) grace /\
       (busy w <= grace -> busy (Close (instance src) w) = 0)) /\
      cancelled (Close (instance src) w) = true /\
      ctx_Done (ctx (instance src)) (cancelled (Close (instance src) w)) = true /\
      inShutdown (Close (instance src) w) = true /\
      clock w <= clock (Close (instance src) w) <= clock w + grace /\
      Close (instance src) (Close (instance src) w) = Close (instance src) w) /\
  (forall filePath,
      OpenFilePath filePath = inl src ->
      Close (instance src) w = w /\
      forall called, ctx_Done (ctx (instance src)) called = false).
Proof.
  split.
  - intros address endpoint ssl Hopen grace shut.
    destruct (OpenWebServer_inv _ _ _ _ Hopen) as (_ & Hctx & Hcancel & _).
    unfold Close. rewrite Hcancel, Hctx.
    destruct (onClose_effect w) as (Hc & Hs & Ht & _).
    split; [reflexivity|]. split; [reflexivity|]. split; [reflexivity|].
    split; [reflexivity|]. split.
    { intros Hopenctx. destruct (onClose_grace w Hopenctx) as [Hclock Hbusy].
      subst grace. split; [exact Hclock|]. split; [exact Hbusy|].
      intros Hshort. rewrite Hbusy. lia. }
    unfold ctx_Done. rewrite Hc. subst grace.
    repeat split; try assumption; try lia. apply onClose_again.
  - intros filePath Hopen.
    destruct (OpenFilePath_inv _ _ Hopen) as (_ & _ & Hctx & Hcancel & _).
    unfold Close. rewrite Hcancel, Hctx. now split.
Qed.

End ProducerFacts.

(** ** The file pipeline *)

Section PipelineFacts.

Variable k : Plugin.
Variable DefaultBatchSize : Z.
Variable NewEventWriters : Z -> Z -> EventWriters + error.
Variable os_Open : string -> File * goerror.
Variable emptyArrayIsNil : bool.
Variable time_Parse : string -> Time + error.
Variable ParseBytes : bytes -> Value + error.
Variable MarshalTo : Value -> bytes.
Variable Writer_Write : EventWriter -> bytes -> EventWriter * goerror.

Local Abbreviation OpenFilePath := (OpenFilePath k DefaultBatchSize NewEventWriters os_Open).
Local Abbreviation onMessage := (onMessage emptyArrayIsNil time_Parse ParseBytes).
Local Abbreviation normalize := (normalize emptyArrayIsNil time_Parse ParseBytes).
Local Abbreviation normalizerGoroutine :=
  (normalizerGoroutine emptyArrayIsNil time_Parse ParseBytes).
Local Abbreviation batchLoop := (batchLoop MarshalTo Writer_Write k).

Lemma scanGoroutine_sends (err : goerror) (file : File) :
  scanGoroutine err file =
  map SendBytes (filter (fun line => nonEmpty line = true) (lines file))
  ++ match scanErr file with
     | Some _ => [SendError err]
     | None => []
     end
  ++ [CloseErrorChan; CloseEventChan].
Proof.
  unfold scanGoroutine. f_equal.
  induction (lines file) as [|line ls IH]; [reflexivity|].
  simpl. rewrite IH. unfold filter at 2. simpl. unfold nonEmpty.
  destruct (0 <? len line) eqn:Hl; simpl.
  - destruct (decide (true = true)); [reflexivity|congruence].
  - destruct (decide (false = true)); [discriminate|reflexivity].
Qed.

Lemma onMessage_goes_on (msg : bytes) :
  continues (onMessage msg) = true /\ toErrorChan (onMessage msg) = [].
Proof.
  unfold onMessage, onParsed.
  destruct (ParseBytes msg) as [v|e]; [|now split].
  destruct (parseJSONMessagePtr _ _ _) as [values [err|]]; now split.
Qed.

(** Messages are handled one after the other, and the goroutine goes on
    after each of them. *)
Lemma normalizerGoroutine_messages (msgs : list bytes) (rest : list chanOp) :
  normalizerGoroutine (map SendBytes msgs ++ rest) =
  map onMessage msgs ++ normalizerGoroutine rest.
Proof.
  induction msgs as [|msg msgs IH]; [reflexivity|].
  destruct (onMessage_goes_on msg) as [Hgo _].
  rewrite map_cons, <- app_comm_cons.
  change (normalizerGoroutine (SendBytes msg :: (map SendBytes msgs ++ rest)))
    with (onMessage msg ::
          (if continues (onMessage msg)
           then normalizerGoroutine (map SendBytes msgs ++ rest) else [])).
  now rewrite Hgo, IH.
Qed.

Lemma downstream_messages (msgs : list bytes) (its : list iteration) :
  downstream (map onMessage msgs ++ its) =
  map inl (flat_map normalize msgs) ++ downstream its.
Proof.
  unfold downstream. rewrite flat_map_app. f_equal.
  induction msgs as [|msg msgs IH]; [reflexivity|].
  destruct (onMessage_goes_on msg) as [_ Hnone].
  cbn [map flat_map]. rewrite IH, Hnone. cbn [map].
  rewrite app_nil_r, map_app. reflexivity.
Qed.

(** C1 (as the code behaves): when the scanner stops with a read error,
    the goroutine of [OpenFilePath] sends the [err] of [os.Open], which is
    nil on this path, instead of the scanner's error. The parsing goroutine
    forwards that nil, the read error itself never reaches [NextBatch], and
    the pull that receives the nil returns the filled count with a nil
    error while setting [eof]. *)
Theorem C1_read_error_arrives_as_nil (filePath : string) (src : opened) (readErr : error) :
  OpenFilePath filePath = inl src ->
  scanErr (os_Open filePath).1 = Some readErr ->
  let msgs := filter (fun line => nonEmpty line = true) (lines (os_Open filePath).1) in
  producer src = map SendBytes msgs ++ [SendError None; CloseErrorChan; CloseEventChan] /\
  downstream (normalizerGoroutine (producer src)) =
    map inl (flat_map normalize msgs) ++ [inr None] /\
  ~ In (inr (Some readErr)) (downstream (normalizerGoroutine (producer src))) /\
  (forall timeout i evts log s env,
      (i < length evts)%nat ->
      select (ctx (instance src)) timeout s = Some (CaseError (Recv None)) ->
      batchLoop (instance src) timeout i evts log (s :: env) =
      Return i None (set_eof (instance src)) evts log).
Proof.
  intros Hopen Hscan msgs.
  destruct (OpenFilePath_inv _ _ _ _ _ _ Hopen) as (_ & Hprod & _).
  assert (Hops : producer src =
                 map SendBytes msgs ++ [SendError None; CloseErrorChan; CloseEventChan]).
  { rewrite Hprod, scanGoroutine_sends, Hscan. reflexivity. }
  assert (Hdown : downstream (normalizerGoroutine (producer src)) =
                  map inl (flat_map normalize msgs) ++ [inr None]).
  { rewrite Hops, normalizerGoroutine_messages, downstream_messages. reflexivity. }
  split; [exact Hops|]. split; [exact Hdown|]. split.
  - rewrite Hdown. intros Hin. apply in_app_or in Hin. destruct Hin as [Hin|Hin].
    + apply in_map_iff in Hin. destruct Hin as (x & Hx & _). discriminate.
    + destruct Hin as [Hin|[]]. discriminate.
  - intros timeout i evts log s env Hi Hsel.
    now rewrite batchLoop_unfold, Hsel.
Qed.

End PipelineFacts.

(** * The properties at concrete inputs *)

Lemma C5_event_yields_one_record_witness :
  Object_Get [("kind", Str "Event"); ("stageTimestamp", Str ts0)] "kind" = Some (Str "Event") /\
  parseListed knownTimes ts0 = inl t0 /\
  parseJSONMessage true (parseListed knownTimes) event0 = ([record event0 t0], None).
Proof.
  split; [reflexivity|]. split; [reflexivity|].
  apply (C5_event_yields_one_record true (parseListed knownTimes) (parseAs event0)
           [("kind", Str "Event"); ("stageTimestamp", Str ts0)] ts0 t0); reflexivity.
Defined.

Lemma C6_event_list_yields_items_in_order_witness :
  Forall2 (validEvent (parseListed knownTimes)) [event0; event1] [t0; t1] /\
  toEventChan (onParsed false (parseListed knownTimes) (inl eventList))
  = [record event0 t0; record event1 t1].
Proof.
  assert (Hvalid : Forall2 (validEvent (parseListed knownTimes)) [event0; event1] [t0; t1]).
  { constructor; [exists ts0; repeat split; reflexivity|].
    constructor; [exists ts1; repeat split; reflexivity|].
    constructor. }
  split; [exact Hvalid|].
  apply (C6_event_list_yields_items_in_order false (parseListed knownTimes)
           [("kind", Str "EventList"); ("items", Array [event0; event1])]
           [event0; event1] [t0; t1]); [reflexivity | reflexivity | exact Hvalid].
Defined.

Lemma C3_unrecognized_element_discards_message_witness :
  unrecognized junk /\
  parseJSONMessage true (parseListed knownTimes) (Array [event0; junk; event1])
  = ([record event0 t0], Some (New "data not recognized as a k8s audit event")) /\
  onParsed true (parseListed knownTimes) (inl (Array [event0; junk; event1]))
  = discards (New "data not recognized as a k8s audit event").
Proof.
  split; [exact I|].
  apply (C3_unrecognized_element_discards_message true (parseListed knownTimes)
           [event0] [event1] junk); [|exact I].
  constructor; [reflexivity | constructor].
Defined.

(** C3 as stated fails: the array holds one valid event and one element
    of unrecognized shape, and the record of the valid event is not sent,
    although the array without that element yields it. *)
Lemma C3_unrecognized_element_not_skipped :
  unrecognized junk /\
  toEventChan (onParsed true (parseListed knownTimes) (inl (Array [event0; junk]))) = [] /\
  toEventChan (onParsed true (parseListed knownTimes) (inl (Array [event0])))
  = [record event0 t0] /\
  printed (onParsed true (parseListed knownTimes) (inl (Array [event0; junk])))
  = ["data not recognized as a k8s audit event"].
Proof. repeat split. Qed.

Lemma C2_exhaustion_is_terminal_witness :
  batchLoop marshal storeWrite plugin0 (instance fileOpened) 30000000 0 (emptySlots 4) []
    [closedEvents]
  = Return 0 (Some ErrEOF) (set_eof (instance fileOpened)) (emptySlots 4) [] /\
  pulls marshal storeWrite plugin0 (set_eof (instance fileOpened)) (emptySlots 4)
    [(100, [offer 101 (inl (record event0 t0))]); (200, [])]
  = [Return 0 (Some ErrEOF) (set_eof (instance fileOpened)) (emptySlots 4) [];
     Return 0 (Some ErrEOF) (set_eof (instance fileOpened)) (emptySlots 4) []].
Proof.
  split.
  - apply (proj1 (C2_exhaustion_is_terminal marshal storeWrite plugin0
                    (instance fileOpened) (emptySlots 4))
             30000000 0%nat [] closedEvents [] (CaseEvent Closed)).
    + simpl. lia.
    + reflexivity.
    + reflexivity.
  - apply (proj2 (C2_exhaustion_is_terminal marshal storeWrite plugin0
                    (set_eof (instance fileOpened)) (emptySlots 4)) eq_refl).
Defined.

Lemma C4_timeout_returns_filled_count_witness :
  select Background (0 + 30 * 1000000) (quiet 29999999) = None /\
  select Background (0 + 30 * 1000000) (quiet 30000000) = Some CaseTimeout /\
  NextBatch marshal storeWrite plugin0 (instance fileOpened) (emptySlots 4) 0
    [quiet 10; quiet 29999999; quiet 30000000]
  = Return 0 (Some ErrTimeout) (instance fileOpened) (emptySlots 4) [] /\
  exists err,
    pulls marshal storeWrite plugin0 (instance fileOpened) (emptySlots 4)
      [(0, [quiet 10; quiet 29999999; quiet 30000000]);
       (40000000, [offer 40000001 (inl (record event0 t0)); quiet 70000000])]
    = [Return 0 (Some ErrTimeout) (instance fileOpened) (emptySlots 4) [];
       Return 1 err (instance fileOpened)
         (<[0%nat:=SetTimestamp {| written := marshal event0; timestamp := 0 |}
                     (uint64 (UnixNano t0))]> (emptySlots 4)) []].
Proof.
  split; [reflexivity|]. split; [reflexivity|].
  destruct (C4_timeout_returns_filled_count marshal storeWrite plugin0
              (instance fileOpened) (emptySlots 4) 0 0%nat []
              [quiet 10; quiet 29999999] (quiet 30000000) []) as (_ & _ & Hpull).
  - simpl. lia.
  - constructor; [reflexivity|]. constructor; [reflexivity|]. constructor.
  - reflexivity.
  - destruct (Hpull eq_refl) as [Hfirst Hlater]. split; [exact Hfirst|].
    apply (Hlater 40000000 (offer 40000001 (inl (record event0 t0))) (quiet 70000000)
             (record event0 t0) {| written := ""; timestamp := 0 |}
             {| written := marshal event0; timestamp := 0 |}).
    + reflexivity.
    + vm_compute. discriminate.
    + reflexivity.
    + reflexivity.
    + reflexivity.
Defined.

Lemma C7_oversized_record_is_dropped_witness :
  MaxEventSize (Config plugin0) < len (marshal (Data (record event1 t1))) /\
  batchLoop marshal storeWrite plugin0 (instance fileOpened) 30000000 1 (emptySlots 4) []
    [offer 7 (inl (record event1 t1)); quiet 30000000]
  = Return 1 (Some ErrTimeout) (instance fileOpened) (emptySlots 4)
      ["dropped event larger than maxEventSize: size=71"].
Proof.
  split; [reflexivity|].
  destruct (C7_oversized_record_is_dropped marshal storeWrite plugin0
              (instance fileOpened) 30000000 1%nat (emptySlots 4) []
              (offer 7 (inl (record event1 t1))) [quiet 30000000] (record event1 t1))
    as (_ & Htimer & _).
  - simpl. lia.
  - simpl. lia.
  - reflexivity.
  - reflexivity.
  - apply (Htimer (quiet 30000000) []). reflexivity.
Defined.

Lemma C8_webhook_handler_contract_witness :
  handler plugin0 getRequest =
  {| response := {| status := 405; body := "GET method not allowed" +:+ LF |};
     enqueued := []; logged := [] |} /\
  handler plugin0 textRequest =
  {| response := {| status := 400; body := "wrong Content Type" +:+ LF |};
     enqueued := []; logged := [] |} /\
  handler plugin0 largeRequest =
  {| response := {| status := 400; body := "bad request: http: request body too large" +:+ LF |};
     enqueued := []; logged := ["bad request: http: request body too large"] |} /\
  handler plugin0 brokenRequest =
  {| response := {| status := 400; body := "bad request: unexpected EOF" +:+ LF |};
     enqueued := []; logged := ["bad request: unexpected EOF"] |} /\
  handler plugin0 goodRequest =
  {| response := {| status := 200; body := "" |}; enqueued := ["[]"]; logged := [] |}.
Proof.
  assert (Hrange : 0 <= WebhookMaxBatchSize (Config plugin0) < 2 ^ 64) by (simpl; lia).
  split; [|split; [|split; [|split]]].
  - apply (proj1 (C8_webhook_handler_contract plugin0 getRequest Hrange)). discriminate.
  - apply (proj1 (proj2 (C8_webhook_handler_contract plugin0 textRequest Hrange)));
      reflexivity.
  - apply (proj1 (proj2 (proj2 (C8_webhook_handler_contract plugin0 largeRequest Hrange)))
             eq_refl eq_refl (New "http: request body too large")).
    left. split; [reflexivity | reflexivity].
  - apply (proj1 (proj2 (proj2 (C8_webhook_handler_contract plugin0 brokenRequest Hrange)))
             eq_refl eq_refl (New "unexpected EOF")).
    right. split; [vm_compute; discriminate | reflexivity].
  - apply (proj2 (proj2 (proj2 (C8_webhook_handler_contract plugin0 goodRequest Hrange))));
      [reflexivity | reflexivity | vm_compute; discriminate | reflexivity].
Defined.

Lemma C9_close_by_variant_witness :
  OpenWebServer plugin0 4 newSlots listenOk "0.0.0.0:9765" "/k8s-audit" false = inl webOpened /\
  cancelled world0 = false /\
  clock (Close (instance webOpened) world0) = 1000 + 5000000000 /\
  busy (Close (instance webOpened) world0) = 7000000000 - 5000000000 /\
  cancelled (Close (instance webOpened) world0) = true /\
  Close (instance webOpened) (Close (instance webOpened) world0) =
  Close (instance webOpened) world0 /\
  OpenFilePath plugin0 4 newSlots openTorn "audit.log" = inl fileOpened /\
  Close (instance fileOpened) world0 = world0.
Proof.
  split; [reflexivity|]. split; [reflexivity|].
  destruct (proj1 (C9_close_by_variant plugin0 4 newSlots openTorn listenOk webOpened world0)
              "0.0.0.0:9765" "/k8s-audit" false eq_refl)
    as (_ & _ & _ & _ & Hgrace & Hdone & _ & _ & _ & Hagain).
  destruct (Hgrace eq_refl) as (Hclock & Hbusy & _).
  split; [exact Hclock|]. split; [exact Hbusy|]. split; [exact Hdone|].
  split; [exact Hagain|]. split; [reflexivity|].
  apply (proj2 (C9_close_by_variant plugin0 4 newSlots openTorn listenOk fileOpened world0)
           "audit.log" eq_refl).
Defined.

(** C9 as stated fails for the file variant: closing the source that
    [OpenFilePath] returns leaves everything as it was, and the context of
    the source is not done afterwards. *)
Lemma C9_file_close_fires_nothing :
  OpenFilePath plugin0 4 newSlots openTorn "audit.log" = inl fileOpened /\
  cancel (instance fileOpened) = None /\
  Close (instance fileOpened) world0 = world0 /\
  ctx_Done (ctx (instance fileOpened)) (cancelled (Close (instance fileOpened) world0)) = false.
Proof. repeat split. Qed.

Lemma C1_read_error_arrives_as_nil_witness :
  OpenFilePath plugin0 4 newSlots openTorn "audit.log" = inl fileOpened /\
  scanErr (openTorn "audit.log").1 = Some (New "bufio.Scanner: token too long") /\
  downstream (normalizerGoroutine true (parseListed knownTimes) (parseAs (Array []))
                (producer fileOpened)) = [inr None] /\
  batchLoop marshal storeWrite plugin0 (instance fileOpened) 30000000 0 (emptySlots 4) []
    [offer 9 (inr None)]
  = Return 0 None (set_eof (instance fileOpened)) (emptySlots 4) [].
Proof.
  split; [reflexivity|]. split; [reflexivity|].
  destruct (C1_read_error_arrives_as_nil plugin0 4 newSlots openTorn true
              (parseListed knownTimes) (parseAs (Array [])) marshal storeWrite
              "audit.log" fileOpened (New "bufio.Scanner: token too long") eq_refl eq_refl)
    as (_ & Hdown & _ & Hpull).
  split; [exact Hdown|].
  apply Hpull; [simpl; lia | reflexivity].
Defined.

(** * Further properties *)

(** Induction on values that goes through the elements of arrays. *)
Lemma Value_nested_ind (P : Value -> Prop) :
  (forall v, (forall a, v <> Array a) -> P v) ->
  (forall a, Forall P a -> P (Array a)) ->
  forall v, P v.
Proof.
  intros Hleaf Harray. fix IH 1. intros v.
  destruct v as [ | | | raw | s | a | kvs]; try (apply Hleaf; discriminate).
  apply Harray. induction a as [|x a IHa]; constructor; [apply IH | exact IHa].
Qed.

Lemma Forall_flat_map_leaves (P : Value -> Prop) (a : list Value) :
  Forall P (flat_map leaves a) -> Forall (fun x => Forall P (leaves x)) a.
Proof.
  induction a as [|x a IH]; intros H; constructor.
  - simpl in H. apply Forall_app in H. tauto.
  - apply IH. simpl in H. apply Forall_app in H. tauto.
Qed.

Lemma flat_map_flat_map {A B C : Type} (f : B -> list C) (g : A -> list B) (l : list A) :
  flat_map f (flat_map g l) = flat_map (fun x => flat_map f (g x)) l.
Proof.
  induction l as [|x l IH]; [reflexivity|].
  simpl. now rewrite flat_map_app, IH.
Qed.

(** The error of the array loop is the error of the first element that
    has one. *)
Lemma rangeArray_error (rec : Value -> list auditEvent * goerror) (vs : list Value) :
  forall res, (rangeArray rec vs res).2 = firstError rec vs.
Proof.
  induction vs as [|v vs IH]; intros res; [reflexivity|].
  simpl. destruct (rec v) as [values [e|]]; [reflexivity|]. apply IH.
Qed.

Lemma firstError_app (rec : Value -> list auditEvent * goerror) (l1 l2 : list Value) :
  firstError rec (l1 ++ l2) =
  match firstError rec l1 with
  | Some e => Some e
  | None => firstError rec l2
  end.
Proof.
  induction l1 as [|v l1 IH]; [reflexivity|].
  simpl. destruct (rec v).2; [reflexivity | exact IH].
Qed.

Lemma firstError_None (rec : Value -> list auditEvent * goerror) (l : list Value) :
  Forall (fun v => (rec v).2 = None) l -> firstError rec l = None.
Proof.
  induction 1 as [|v l Hv _ IH]; [reflexivity|]. simpl. now rewrite Hv.
Qed.

Lemma firstError_at (rec : Value -> list auditEvent * goerror)
  (l1 l2 : list Value) (u : Value) (err : error) :
  Forall (fun v => (rec v).2 = None) l1 -> (rec u).2 = Some err ->
  firstError rec (l1 ++ u :: l2) = Some err.
Proof.
  intros Hok Hu. rewrite firstError_app, (firstError_None _ _ Hok). simpl. now rewrite Hu.
Qed.

Section NormalizerMore.

Variable emptyArrayIsNil : bool.
Variable time_Parse : string -> Time + error.
Variable ParseBytes : bytes -> Value + error.

Local Abbreviation parseJSONAuditEvent := (parseJSONAuditEvent time_Parse).
Local Abbreviation parseItems := (parseItems time_Parse).
Local Abbreviation parseKind := (parseKind emptyArrayIsNil time_Parse).
Local Abbreviation parseJSONMessage := (parseJSONMessage emptyArrayIsNil time_Parse).
Local Abbreviation onParsed := (onParsed emptyArrayIsNil time_Parse).
Local Abbreviation onMessage := (onMessage emptyArrayIsNil time_Parse ParseBytes).
Local Abbreviation normalize := (normalize emptyArrayIsNil time_Parse ParseBytes).
Local Abbreviation normalizerGoroutine :=
  (normalizerGoroutine emptyArrayIsNil time_Parse ParseBytes).
Local Abbreviation stamped := (stamped time_Parse).

Lemma not_array_leaf (v : Value) :
  (forall a, v <> Array a) -> parseJSONMessage v = parseKind v /\ leaves v = [v].
Proof.
  intros H. destruct v as [ | | | raw | s | a | kvs]; try (split; reflexivity).
  now destruct (H a).
Qed.

(** X1: array nesting is transparent. When every non-array value of a
    message is accepted on its own, the message yields the records of
    those values in depth-first order, whatever the nesting depth. *)
Theorem nested_arrays_yield_leaf_records (v : Value) :
  Forall (fun leaf => (parseKind leaf).2 = None) (leaves v) ->
  parseJSONMessage v = (flat_map (fun leaf => (parseKind leaf).1) (leaves v), None) /\
  onParsed (inl v) = emits (flat_map (fun leaf => (parseKind leaf).1) (leaves v)).
Proof.
  intros Hok.
  assert (H : parseJSONMessage v =
              (flat_map (fun leaf => (parseKind leaf).1) (leaves v), None)).
  { revert Hok. induction v as [v Hv|a IHa] using Value_nested_ind; intros Hok.
    - destruct (not_array_leaf v Hv) as [-> Hl]. rewrite Hl in *. simpl.
      rewrite app_nil_r. inversion Hok as [|? ? Hk _]; subst.
      destruct (parseKind v) as [r e]. simpl in *. now subst.
    - apply Forall_flat_map_leaves in Hok.
      assert (Hall : Forall (fun x => parseJSONMessage x =
                  (flat_map (fun leaf => (parseKind leaf).1) (leaves x), None)) a).
      { clear -IHa Hok. induction IHa as [|x a Hx _ IH]; [constructor|].
        inversion Hok; subst. constructor; auto. }
      rewrite parseJSONMessage_array, rangeArray_all_ok.
      + simpl. f_equal. cbn [leaves]. rewrite flat_map_flat_map.
        clear -Hall. induction Hall as [|x a Hx _ IH]; [reflexivity|].
        simpl. now rewrite Hx, IH.
      + clear -Hall. induction Hall as [|x a Hx _ IH]; constructor; [now rewrite Hx | exact IH]. }
  split; [exact H | now apply onParsed_ok].
Qed.

(** The error of a message is the error of its first failing leaf. *)
Lemma parseJSONMessage_error (v : Value) :
  (parseJSONMessage v).2 = firstError parseKind (leaves v).
Proof.
  induction v as [v Hv|a IHa] using Value_nested_ind.
  - destruct (not_array_leaf v Hv) as [-> ->]. simpl. now destruct (parseKind v).2.
  - rewrite parseJSONMessage_array, rangeArray_error. cbn [leaves].
    induction IHa as [|x a Hx _ IH]; [reflexivity|].
    simpl. rewrite firstError_app, <- Hx.
    destruct (parseJSONMessage x).2; [reflexivity | exact IH].
Qed.

(** X2: one failing value anywhere in the nesting discards the whole
    message. If the leaves before [u] are accepted and [u] is not, the
    message fails with the error of [u], that error is logged, and no
    record is sent, not even those of the leaves before [u]. *)
Theorem failing_leaf_discards_message (v : Value) (l1 l2 : list Value) (u : Value)
  (err : error) :
  leaves v = l1 ++ u :: l2 ->
  Forall (fun leaf => (parseKind leaf).2 = None) l1 ->
  (parseKind u).2 = Some err ->
  (parseJSONMessage v).2 = Some err /\
  onParsed (inl v) = discards err.
Proof.
  intros Hl Hok Hu.
  assert (H : (parseJSONMessage v).2 = Some err).
  { rewrite parseJSONMessage_error, Hl. now apply firstError_at. }
  split; [exact H|].
  destruct (parseJSONMessage v) as [r e] eqn:Hp. simpl in H. subst e.
  now apply (onParsed_err _ _ _ _ _ Hp).
Qed.

Lemma parseJSONAuditEvent_stamped (item : Value) (t : Time) :
  stamped item t -> parseJSONAuditEvent item = inl (record item t).
Proof.
  intros (s & Hts & Hparse).
  unfold parseJSONAuditEvent. rewrite Hts. simpl. now rewrite Hparse.
Qed.

Lemma parseItems_stamped (items : list Value) (ts : list Time) :
  Forall2 stamped items ts ->
  forall res, parseItems items res = (res ++ zip_with record items ts, None).
Proof.
  induction 1 as [|item t items ts Hv _ IH]; intros res; simpl.
  - now rewrite app_nil_r.
  - rewrite (parseJSONAuditEvent_stamped _ _ Hv), IH, <- app_assoc. reflexivity.
Qed.

Lemma parseItems_bad (l1 l2 : list Value) (ts : list Time) (bad : Value) (err : error) :
  Forall2 stamped l1 ts ->
  parseJSONAuditEvent bad = inr err ->
  forall res, parseItems (l1 ++ bad :: l2) res = ([], Some err).
Proof.
  induction 1 as [|item t items ts Hv _ IH]; intros Hbad res; simpl.
  - now rewrite Hbad.
  - rewrite (parseJSONAuditEvent_stamped _ _ Hv). now apply IH.
Qed.

(** X3: an "Event" object without a usable [stageTimestamp] yields no
    record. Without the field the logged error is "can't read
    stageTimestamp"; with a field that [time.Parse] rejects it is the
    error of [time.Parse]; a field that is not a string is parsed as the
    empty string. *)
Theorem event_without_timestamp_is_discarded (kvs : list (string * Value)) :
  Object_Get kvs "kind" = Some (Str "Event") ->
  (Object_Get kvs "stageTimestamp" = None ->
   onParsed (inl (Object kvs)) = discards (New "can't read stageTimestamp")) /\
  (forall s err,
      Object_Get kvs "stageTimestamp" = Some (Str s) ->
      time_Parse s = inr err ->
      onParsed (inl (Object kvs)) = discards err) /\
  (forall x,
      Object_Get kvs "stageTimestamp" = Some x ->
      (forall s, x <> Str s) ->
      onParsed (inl (Object kvs)) =
      match time_Parse "" with
      | inr err => discards err
      | inl t => emits [record (Object kvs) t]
      end).
Proof.
  intros Hkind.
  assert (Hdispatch : parseJSONMessage (Object kvs) =
            match parseJSONAuditEvent (Object kvs) with
            | inr err => ([], Some err)
            | inl event => ([event], None)
            end).
  { rewrite parseJSONMessage_object. unfold parseKind. simpl. now rewrite Hkind. }
  unfold onParsed, parseJSONMessagePtr. rewrite Hdispatch.
  unfold parseJSONAuditEvent. cbn [Get]. repeat split.
  - intros Hnone. now rewrite Hnone.
  - intros s err Hts Herr. rewrite Hts. simpl. now rewrite Herr.
  - intros x Hts Hx. rewrite Hts.
    destruct x as [ | | | raw | s | a | kvs']; try (simpl; now destruct (time_Parse "")).
    now destruct (Hx s).
Qed.

(** X4: the items of an "EventList" are never checked for their [kind]:
    every item with a parseable [stageTimestamp] yields a record, in the
    order of the items, whether or not it is an "Event". *)
Theorem event_list_items_need_only_a_timestamp
  (kvs : list (string * Value)) (items : list Value) (ts : list Time) :
  Object_Get kvs "kind" = Some (Str "EventList") ->
  Object_Get kvs "items" = Some (Array items) ->
  Forall2 stamped items ts ->
  toEventChan (onParsed (inl (Object kvs))) = zip_with record items ts /\
  (items <> [] -> onParsed (inl (Object kvs)) = emits (zip_with record items ts)).
Proof.
  intros Hkind Hitems Hst.
  pose proof (parseItems_stamped _ _ Hst []) as Hloop.
  unfold onParsed, parseJSONMessagePtr.
  rewrite parseJSONMessage_object. unfold parseKind. simpl.
  rewrite Hkind, Hitems. simpl.
  destruct items as [|item items].
  - inversion Hst; subst. split; [|congruence]. destruct emptyArrayIsNil; reflexivity.
  - rewrite Hloop. split; reflexivity.
Qed.

(** X5: one item of an "EventList" without a parseable [stageTimestamp]
    discards the whole list, including the records of the items before
    it: [parseJSONMessage] returns no record beside the error. *)
Theorem event_list_bad_item_discards_list
  (kvs : list (string * Value)) (l1 l2 : list Value) (ts : list Time) (bad : Value)
  (err : error) :
  Object_Get kvs "kind" = Some (Str "EventList") ->
  Object_Get kvs "items" = Some (Array (l1 ++ bad :: l2)) ->
  Forall2 stamped l1 ts ->
  parseJSONAuditEvent bad = inr err ->
  parseJSONMessage (Object kvs) = ([], Some err) /\
  onParsed (inl (Object kvs)) = discards err.
Proof.
  intros Hkind Hitems Hst Hbad.
  assert (H : parseJSONMessage (Object kvs) = ([], Some err)).
  { rewrite parseJSONMessage_object. unfold parseKind. simpl.
    rewrite Hkind, Hitems. simpl.
    destruct (l1 ++ bad :: l2) eqn:Hl; [now destruct l1|].
    rewrite <- Hl. now apply (parseItems_bad l1 l2 ts). }
  split; [exact H | now apply (onParsed_err _ _ _ _ _ H)].
Qed.

(** X6: an "EventList" whose [items] field is missing or is not an array
    is reported as not recognized and yields no record. *)
Theorem event_list_without_items_is_not_recognized (kvs : list (string * Value)) :
  Object_Get kvs "kind" = Some (Str "EventList") ->
  (forall a, Object_Get kvs "items" <> Some (Array a)) ->
  parseJSONMessage (Object kvs) = notRecognized /\
  onParsed (inl (Object kvs)) = discards (New "data not recognized as a k8s audit event").
Proof.
  intros Hkind Hitems.
  assert (H : parseJSONMessage (Object kvs) = notRecognized).
  { rewrite parseJSONMessage_object. unfold parseKind. simpl. rewrite Hkind. simpl.
    destruct (Object_Get kvs "items") as [[ | | | raw | s | a | kvs']|]; try reflexivity.
    now destruct (Hitems a). }
  split; [exact H | now apply (onParsed_err _ _ _ _ _ H)].
Qed.

(** X7: a message that cannot be parsed as JSON is logged and skipped;
    the parsing goroutine goes on, and the stream it produces is the one
    it would produce without that message. *)
Theorem malformed_message_is_skipped
  (msgs : list bytes) (bad : bytes) (err : error) (rest : list chanOp) :
  ParseBytes bad = inr err ->
  onMessage bad = discards err /\
  downstream (normalizerGoroutine (map SendBytes msgs ++ SendBytes bad :: rest)) =
  downstream (normalizerGoroutine (map SendBytes msgs ++ rest)).
Proof.
  intros Hbad.
  assert (Hmsg : onMessage bad = discards err).
  { unfold onMessage. now rewrite Hbad. }
  split; [exact Hmsg|].
  replace (map SendBytes msgs ++ SendBytes bad :: rest)
    with (map SendBytes (msgs ++ [bad]) ++ rest)
    by (rewrite map_app, <- app_assoc; reflexivity).
  rewrite !normalizerGoroutine_messages, !downstream_messages, flat_map_app.
  change (flat_map normalize [bad]) with (toEventChan (onMessage bad) ++ []).
  rewrite Hmsg. simpl. now rewrite !app_nil_r.
Qed.

End NormalizerMore.

(** ** More on the batcher *)

(** The case a [select] takes is one of those that can proceed. *)
Lemma select_ready (c : context) (timeout : Z) (s : snapshot) (x : selectCase) :
  select c timeout s = Some x -> In x (ready c timeout s).
Proof.
  unfold select. intros H. apply list_elem_of_lookup_2 in H. now apply list_elem_of_In.
Qed.

(** With a case that can proceed the [select] does not park. *)
Lemma select_some (c : context) (timeout : Z) (s : snapshot) :
  ready c timeout s <> [] -> exists x, select c timeout s = Some x.
Proof.
  intros Hne. unfold select. apply lookup_lt_is_Some_2.
  apply Nat.mod_upper_bound. now destruct (ready c timeout s).
Qed.

Section BatcherMore.

Variable MarshalTo : Value -> bytes.
Variable Writer_Write : EventWriter -> bytes -> EventWriter * goerror.
Variable plugin : Plugin.

Local Abbreviation batchLoop := (batchLoop MarshalTo Writer_Write plugin).
Local Abbreviation NextBatch := (NextBatch MarshalTo Writer_Write plugin).
Local Abbreviation fits := (fits MarshalTo plugin).
Local Abbreviation filled := (filled MarshalTo Writer_Write).

(** What holds of every way the loop can end. *)
Lemma batchLoop_shape (env : list snapshot) :
  forall (e : eventSource) (timeout : Z) (i : nat) (evts : EventWriters) (log : list string),
    (i <= length evts)%nat ->
    match batchLoop e timeout i evts log env with
    | Return n err e' evts' log' =>
        (i <= n <= length evts)%nat /\
        length evts' = length evts /\
        (e' = e \/ e' = set_eof e) /\
        (forall j, (j < i \/ n < j)%nat -> evts' !! j = evts !! j) /\
        (err = None -> eof e' = false -> n = length evts)
    | Parked => True
    | Panic => False
    end.
Proof.
  induction env as [|s env IH]; intros e timeout i evts log Hi.
  - simpl. destruct (Nat.leb_spec (length evts) i); [|exact I].
    repeat split; auto; lia.
  - destruct (Nat.le_gt_cases (length evts) i) as [Hfull|Hfree].
    { rewrite batchLoop_full by assumption. repeat split; auto; lia. }
    rewrite batchLoop_unfold by assumption.
    destruct (select (ctx e) timeout s) as [[[|ev]| | |[|err]]|]; cbn zeta;
      unfold EventWriters in *.
    + repeat split; auto; try lia. discriminate.
    + destruct (int (MaxEventSize (Config plugin)) <? len (MarshalTo (Data ev))).
      { now apply IH. }
      assert (Hw : is_Some (evts !! i)) by (now apply lookup_lt_is_Some_2).
      destruct Hw as [w Hw]. rewrite Hw.
      destruct (Writer_Write w (MarshalTo (Data ev))) as [w' [err|]].
      * repeat split; auto; try lia; try discriminate.
        -- now rewrite length_insert.
        -- intros j Hj. apply list_lookup_insert_ne. lia.
      * specialize (IH e timeout (S i)
                      (<[i:=SetTimestamp w' (uint64 (UnixNano (Timestamp ev)))]> evts) log).
        rewrite length_insert in IH. specialize (IH Hfree).
        destruct (batchLoop e timeout (S i) _ log env) as [n err e' evts' log'| |];
          [|exact I|exact IH].
        destruct IH as (Hn & Hlen & He & Hslots & Hfullok).
        repeat split; auto; try lia.
        intros j Hj. rewrite Hslots by lia. apply list_lookup_insert_ne. lia.
    + repeat split; auto; try lia. discriminate.
    + repeat split; auto; try lia. discriminate.
    + repeat split; auto; try lia. discriminate.
    + repeat split; auto; try lia. discriminate.
    + now apply IH.
Qed.

(** X8: [NextBatch] never indexes the batch out of range, whatever it
    receives and whatever the slot writers do. *)
Theorem pull_never_indexes_out_of_range (e : eventSource) (evts : EventWriters)
  (start : Z) (env : list snapshot) :
  NextBatch e evts start env <> Panic.
Proof.
  unfold NextBatch. destruct (eof e); [discriminate|].
  pose proof (batchLoop_shape env e (start + defaultEventTimeout) 0 evts [] (Nat.le_0_l _)) as H.
  intros Hp. now rewrite Hp in H.
Qed.

(** X9: a pull that returns reports at most as many records as the batch
    has slots, keeps the number of slots, leaves every slot after the
    reported count untouched, changes nothing of the source except the
    [eof] flag, and, when it returns a nil error without exhausting the
    source, has filled the whole batch. *)
Theorem pull_keeps_batch_shape (e : eventSource) (evts : EventWriters) (start : Z)
  (env : list snapshot) (n : nat) (err : goerror) (e' : eventSource)
  (evts' : EventWriters) (log' : list string) :
  NextBatch e evts start env = Return n err e' evts' log' ->
  (n <= length evts)%nat /\
  length evts' = length evts /\
  (e' = e \/ e' = set_eof e) /\
  (forall j, (n < j)%nat -> evts' !! j = evts !! j) /\
  (err = None -> eof e' = false -> n = length evts).
Proof.
  unfold NextBatch. destruct (eof e) eqn:He.
  - intros H. injection H as <- <- <- <- <-. repeat split; auto; try lia; try discriminate.
  - intros H.
    pose proof (batchLoop_shape env e (start + defaultEventTimeout) 0 evts [] (Nat.le_0_l _)) as Hs.
    rewrite H in Hs.
    destruct Hs as (Hn & Hlen & Hsrc & Hslots & Hfull).
    repeat split; auto; try lia; intros j Hj; apply Hslots; lia.
Qed.

Local Abbreviation dropLog := (dropLog MarshalTo plugin).

Lemma filter_fits_all (evs : list auditEvent) :
  Forall fits evs -> filter fits evs = evs /\ dropLog evs = [].
Proof.
  unfold dropLog. induction 1 as [|ev evs Hev _ [IH1 IH2]]; [split; reflexivity|].
  rewrite filter_cons_True by assumption.
  rewrite filter_cons_False by tauto. now rewrite IH1.
Qed.

(** Receiving a run of records: those that fit go to consecutive slots in
    the order they arrive, the others leave a log line each. *)
Lemma batchLoop_receives (e : eventSource) (timeout : Z) (ss : list snapshot)
  (evs : list auditEvent) (rest : list snapshot) :
  Forall2 (fun s ev => select (ctx e) timeout s = Some (CaseEvent (Recv ev))) ss evs ->
  (forall w ev, fits ev -> (Writer_Write w (MarshalTo (Data ev))).2 = None) ->
  forall (i : nat) (evts : list EventWriter) (log : list string),
    ((i + length (filter fits evs) < length evts)%nat \/
     (Forall fits evs /\ (i + length evs <= length evts)%nat)) ->
    exists evts' : list EventWriter,
      batchLoop e timeout i evts log (ss ++ rest) =
      batchLoop e timeout (i + length (filter fits evs)) evts' (log ++ dropLog evs) rest /\
      length evts' = length evts /\
      (forall j ev w,
          filter fits evs !! j = Some ev -> evts !! (i + j)%nat = Some w ->
          evts' !! (i + j)%nat = Some (filled w ev)) /\
      (forall j, (j < i \/ i + length (filter fits evs) <= j)%nat -> evts' !! j = evts !! j).
Proof.
  intros Hsel Hwr. unfold dropLog.
  induction Hsel as [|s ev ss evs Hs _ IH]; intros i evts log Hcap.
  - exists evts. simpl. rewrite Nat.add_0_r, app_nil_r.
    repeat split; auto. intros j ev w Hj. destruct j; discriminate.
  - assert (Hi : (i < length evts)%nat).
    { destruct Hcap as [H|[_ H]]; simpl in H; [|lia].
      pose proof (Nat.le_0_l (length (filter fits (ev :: evs)))). lia. }
    destruct (decide (fits ev)) as [Hfit|Hbig].
    + rewrite (filter_cons_True _ _ _ Hfit) in *.
      rewrite (filter_cons_False (fun ev => ~ fits ev)) by tauto.
      assert (Hw : is_Some (evts !! i)) by (now apply lookup_lt_is_Some_2).
      destruct Hw as [w Hw].
      destruct (Writer_Write w (MarshalTo (Data ev))) as [w' g] eqn:Hww.
      pose proof (Hwr w ev Hfit) as Hnone. rewrite Hww in Hnone. simpl in Hnone. subst g.
      set (evts1 := <[i:=SetTimestamp w' (uint64 (UnixNano (Timestamp ev)))]> evts).
      assert (Hlen1 : length evts1 = length evts) by apply length_insert.
      destruct (IH (S i) evts1 log) as (evts' & Heq & Hlen & Hnew & Hold).
      { rewrite Hlen1. destruct Hcap as [H|[Hall H]]; simpl in H.
        - left. lia.
        - right. split; [now inversion Hall | lia]. }
      exists evts'. split; [|split; [|split]].
      * rewrite <- app_comm_cons, batchLoop_unfold, Hs by assumption. cbn zeta.
        unfold fits in Hfit.
        rewrite (proj2 (Z.ltb_ge _ _) Hfit).
        unfold EventWriters in *. rewrite Hw, Hww.
        cbn [length]. rewrite Nat.add_succ_r. exact Heq.
      * congruence.
      * intros j ev0 w0 Hj Hw0. destruct j as [|j].
        -- simpl in Hj. injection Hj as <-. rewrite Nat.add_0_r in *.
           rewrite Hold by lia. rewrite Hw in Hw0. injection Hw0 as <-.
           unfold evts1. rewrite list_lookup_insert_eq by assumption.
           unfold filled. now rewrite Hww.
        -- simpl in Hj. rewrite Nat.add_succ_r in *. apply (Hnew j ev0 w0 Hj).
           unfold evts1. rewrite list_lookup_insert_ne by lia. exact Hw0.
      * intros j Hj. cbn [length] in Hj. rewrite Hold by lia.
        unfold evts1. apply list_lookup_insert_ne. lia.
    + rewrite (filter_cons_False _ _ _ Hbig) in *.
      rewrite (filter_cons_True (fun ev => ~ fits ev)) by assumption.
      destruct Hcap as [Hcap|[Hall _]]; [|now inversion Hall].
      destruct (IH i evts (log ++ [droppedMsg (MarshalTo (Data ev))]))
        as (evts' & Heq & Hlen & Hnew & Hold); [now left|].
      exists evts'. split; [|auto].
      rewrite <- app_comm_cons, batchLoop_unfold, Hs by assumption. cbn zeta.
      unfold fits in Hbig.
      rewrite (proj2 (Z.ltb_lt _ _)) by lia.
      rewrite Heq, <- app_assoc. reflexivity.
Qed.

(** X10: records that fit are delivered in arrival order. When the
    records received one after the other all pass the size test, their
    slot writes succeed and the batch has room for them, the j-th record
    lands in the j-th free slot with its serialisation and its timestamp,
    no other slot changes, and the loop goes on behind them; if they fill
    the batch, the call returns the capacity with a nil error at once. *)
Theorem records_fill_slots_in_arrival_order (e : eventSource) (timeout : Z)
  (ss : list snapshot) (evs : list auditEvent) (rest : list snapshot) (i : nat)
  (evts : list EventWriter) (log : list string) :
  Forall2 (fun s ev => select (ctx e) timeout s = Some (CaseEvent (Recv ev))) ss evs ->
  (forall w ev, fits ev -> (Writer_Write w (MarshalTo (Data ev))).2 = None) ->
  Forall fits evs ->
  (i + length evs <= length evts)%nat ->
  exists evts' : list EventWriter,
    batchLoop e timeout i evts log (ss ++ rest) =
    batchLoop e timeout (i + length evs) evts' log rest /\
    length evts' = length evts /\
    (forall j ev w,
        evs !! j = Some ev -> evts !! (i + j)%nat = Some w ->
        evts' !! (i + j)%nat = Some (filled w ev)) /\
    (forall j, (j < i \/ i + length evs <= j)%nat -> evts' !! j = evts !! j) /\
    ((i + length evs = length evts)%nat ->
     batchLoop e timeout i evts log (ss ++ rest) = Return (length evts) None e evts' log).
Proof.
  intros Hsel Hwr Hall Hcap.
  destruct (filter_fits_all evs Hall) as [Hkept Hlog].
  destruct (batchLoop_receives e timeout ss evs rest Hsel Hwr i evts log)
    as (evts' & Heq & Hlen & Hnew & Hold); [right; now split|].
  rewrite Hkept, Hlog, app_nil_r in *.
  exists evts'. repeat split; auto.
  intros Hfull. rewrite Heq, Hfull. apply batchLoop_full. lia.
Qed.

(** X11: oversized records do not take the place of later ones. Of a
    run of received records exactly those that pass the size test reach
    the batch, in arrival order and in consecutive slots; each of the
    others adds one line to the log, and nothing else distinguishes the
    call from one that never received them. *)
Theorem oversized_records_are_filtered_out (e : eventSource) (timeout : Z)
  (ss : list snapshot) (evs : list auditEvent) (rest : list snapshot) (i : nat)
  (evts : list EventWriter) (log : list string) :
  Forall2 (fun s ev => select (ctx e) timeout s = Some (CaseEvent (Recv ev))) ss evs ->
  (forall w ev, fits ev -> (Writer_Write w (MarshalTo (Data ev))).2 = None) ->
  (i + length (filter fits evs) < length evts)%nat ->
  exists evts' : list EventWriter,
    batchLoop e timeout i evts log (ss ++ rest) =
    batchLoop e timeout (i + length (filter fits evs)) evts' (log ++ dropLog evs) rest /\
    length evts' = length evts /\
    (forall j ev w,
        filter fits evs !! j = Some ev -> evts !! (i + j)%nat = Some w ->
        evts' !! (i + j)%nat = Some (filled w ev)) /\
    (forall j, (j < i \/ i + length (filter fits evs) <= j)%nat -> evts' !! j = evts !! j).
Proof.
  intros Hsel Hwr Hcap.
  apply (batchLoop_receives e timeout ss evs rest Hsel Hwr i evts log). now left.
Qed.

(** X12: bounded wait. At a moment at or after the deadline of the call
    at which no record can be received, the call returns at once with the
    count filled so far: with [ErrTimeout] and the source unchanged, or,
    if the runtime picks a pending cancellation or error instead, with
    the source marked exhausted. It never stays parked. *)
Theorem pull_returns_once_due_without_record (e : eventSource) (timeout : Z) (i : nat)
  (evts : EventWriters) (log : list string) (s : snapshot) (env : list snapshot) :
  (i < length evts)%nat ->
  timeout <= now s ->
  eventChan s = None ->
  exists err e',
    batchLoop e timeout i evts log (s :: env) = Return i err e' evts log /\
    ((err = Some ErrTimeout /\ e' = e) \/ e' = set_eof e).
Proof.
  intros Hi Hdue Hnone.
  assert (Hready : ready (ctx e) timeout s <> []).
  { unfold ready. rewrite Hnone, (proj2 (Z.leb_le _ _) Hdue). discriminate. }
  destruct (select_some _ _ _ Hready) as [c Hc].
  pose proof (select_ready _ _ _ _ Hc) as Hin.
  rewrite batchLoop_unfold, Hc by assumption.
  unfold ready in Hin. rewrite Hnone in Hin. simpl in Hin.
  destruct c as [[|ev]| | |[|err]].
  - exfalso. destruct (timeout <=? now s); simpl in Hin;
      repeat (destruct Hin as [Hin|Hin]; try discriminate);
      destruct (ctx_Done (ctx e) (cancelCtxCalled s)); simpl in Hin;
      repeat (destruct Hin as [Hin|Hin]; try discriminate);
      destruct (errorChan s); simpl in Hin;
      repeat (destruct Hin as [Hin|Hin]; try discriminate); try contradiction.
  - exfalso. destruct (timeout <=? now s); simpl in Hin;
      repeat (destruct Hin as [Hin|Hin]; try discriminate);
      destruct (ctx_Done (ctx e) (cancelCtxCalled s)); simpl in Hin;
      repeat (destruct Hin as [Hin|Hin]; try discriminate);
      destruct (errorChan s); simpl in Hin;
      repeat (destruct Hin as [Hin|Hin]; try discriminate); try contradiction.
  - exists (Some ErrTimeout), e. split; [reflexivity | left; now split].
  - exists (Some ErrEOF), (set_eof e). split; [reflexivity | now right].
  - exists (Some ErrEOF), (set_eof e). split; [reflexivity | now right].
  - exists err, (set_eof e). split; [reflexivity | now right].
Qed.

End BatcherMore.

(** ** More on the producers, the lifecycle and the pipeline *)

Section SourceMore.

Variable k : Plugin.
Variable DefaultBatchSize : Z.
Variable NewEventWriters : Z -> Z -> EventWriters + error.
Variable os_Open : string -> File * goerror.
Variable ListenAndServe : string -> bool -> goerror.
Variable url_Parse : string -> URL + error.
Variable emptyArrayIsNil : bool.
Variable time_Parse : string -> Time + error.
Variable ParseBytes : bytes -> Value + error.
Variable MarshalTo : Value -> bytes.
Variable Writer_Write : EventWriter -> bytes -> EventWriter * goerror.

Local Abbreviation OpenFilePath := (OpenFilePath k DefaultBatchSize NewEventWriters os_Open).
Local Abbreviation OpenWebServer :=
  (OpenWebServer k DefaultBatchSize NewEventWriters ListenAndServe).
Local Abbreviation Open :=
  (Open k DefaultBatchSize NewEventWriters os_Open ListenAndServe url_Parse).
Local Abbreviation normalize := (normalize emptyArrayIsNil time_Parse ParseBytes).
Local Abbreviation normalizerGoroutine :=
  (normalizerGoroutine emptyArrayIsNil time_Parse ParseBytes).
Local Abbreviation batchLoop := (batchLoop MarshalTo Writer_Write k).

(** X13: after [Close] on a webhook source, a pull that finds nothing to
    receive and whose timer is not yet due observes the cancelled context:
    it returns the count filled so far with [ErrEOF] and marks the source
    exhausted. *)
Theorem closed_webhook_source_ends_stream (address endpoint : string) (ssl : bool)
  (src : opened) (w : world) (timeout : Z) (i : nat) (evts : EventWriters)
  (log : list string) (s : snapshot) (env : list snapshot) :
  OpenWebServer address endpoint ssl = inl src ->
  (i < length evts)%nat ->
  cancelCtxCalled s = cancelled (Close (instance src) w) ->
  eventChan s = None ->
  errorChan s = None ->
  now s < timeout ->
  batchLoop (instance src) timeout i evts log (s :: env) =
  Return i (Some ErrEOF) (set_eof (instance src)) evts log.
Proof.
  intros Hopen Hi Hcalled Hev Herr Hearly.
  destruct (OpenWebServer_inv _ _ _ _ _ _ _ _ Hopen) as (_ & Hctx & Hcancel & _).
  assert (Hsel : select (ctx (instance src)) timeout s = Some CaseDone).
  { unfold select, ready. rewrite Hev, Herr, Hctx, Hcalled.
    unfold Close. rewrite Hcancel.
    destruct (onClose_effect w) as (-> & _).
    rewrite (proj2 (Z.leb_gt _ _) Hearly). cbn [app length ctx_Done].
    now rewrite Nat.mod_1_r. }
  now rewrite batchLoop_unfold, Hsel.
Qed.

(** X14: a pull on a file source never takes the cancellation case, and
    while nothing can be received and the timer is not due it stays
    parked even if a cancellation has been requested elsewhere: a file
    source ends only through its channels. *)
Theorem file_source_ignores_cancellation (filePath : string) (src : opened)
  (timeout : Z) (s : snapshot) :
  OpenFilePath filePath = inl src ->
  select (ctx (instance src)) timeout s <> Some CaseDone /\
  (forall i evts log env,
      (i < length evts)%nat ->
      eventChan s = None -> errorChan s = None -> now s < timeout ->
      batchLoop (instance src) timeout i evts log (s :: env) =
      batchLoop (instance src) timeout i evts log env).
Proof.
  intros Hopen.
  destruct (OpenFilePath_inv _ _ _ _ _ _ Hopen) as (_ & _ & Hctx & _).
  rewrite Hctx. split.
  - intros Hsel. apply select_ready in Hsel. unfold ready in Hsel.
    destruct (eventChan s), (timeout <=? now s), (errorChan s); simpl in Hsel;
      repeat (destruct Hsel as [Hsel|Hsel]; [discriminate|]); contradiction.
  - intros i evts log env Hi Hev Herr Hearly.
    assert (Hsel : select Background timeout s = None).
    { unfold select, ready. rewrite Hev, Herr, (proj2 (Z.leb_gt _ _) Hearly). reflexivity. }
    now rewrite batchLoop_unfold, Hctx, Hsel.
Qed.

(** X15: the handler sends a body on the event channel only together
    with the answer 200, at most once per request, and only the complete
    body of a POST with a JSON content type that was read without error
    and is within the limit given to [http.MaxBytesReader], which is the
    configured size converted to [int64], or 0 if that is negative; every
    other request is answered with 400 or 405 and sends nothing. *)
Theorem handler_enqueues_only_accepted_bodies (req : Request) :
  (enqueued (handler k req) = [] /\
   (status (response (handler k req)) = 400 \/ status (response (handler k req)) = 405)) \/
  (enqueued (handler k req) = [Body req] /\
   response (handler k req) = {| status := 200; body := "" |} /\
   logged (handler k req) = [] /\
   Method req = "POST" /\
   Contains (ContentType req) "application/json" = true /\
   len (Body req) <= Z.max 0 (int64 (WebhookMaxBatchSize (Config k))) /\
   BodyErr req = None).
Proof.
  unfold handler.
  destruct (String.eqb_spec (Method req) "POST") as [Hm|Hm]; simpl; [|left; auto].
  destruct (Contains (ContentType req) "application/json") eqn:Hc; simpl; [|left; auto].
  unfold ReadAll_MaxBytes. cbn zeta.
  set (limit := if int64 (WebhookMaxBatchSize (Config k)) <? 0
                then 0 else int64 (WebhookMaxBatchSize (Config k))).
  assert (Hlimit : limit = Z.max 0 (int64 (WebhookMaxBatchSize (Config k)))).
  { unfold limit. destruct (Z.ltb_spec (int64 (WebhookMaxBatchSize (Config k))) 0); lia. }
  destruct (Z.ltb_spec limit (len (Body req))) as [Hbig|Hfit].
  - left. auto.
  - destruct (BodyErr req) as [e|] eqn:He; [left; auto|].
    right. repeat split; auto. lia.
Qed.

(** X16: [Open] yields a source only for the schemes "http", "https" and
    the empty scheme. The first two give a webhook source with a
    cancellable context and [onClose]; the empty scheme gives a file
    source on the parameter as it was passed, with the background context
    and no cancellation function. Any other scheme is refused with an
    error that names it, and a parameter that is not a URL with the error
    of [url.Parse]. *)
Theorem open_selects_the_producer_by_scheme (params : string) :
  (forall err, url_Parse params = inr err -> Open params = inr err) /\
  (forall u,
      url_Parse params = inl u ->
      (Scheme u = "http" ->
       Open params = OpenWebServer (Host u) (Path u) false) /\
      (Scheme u = "https" ->
       Open params = OpenWebServer (Host u) (Path u) true) /\
      (Scheme u = "" -> Open params = OpenFilePath params) /\
      (Scheme u <> "http" -> Scheme u <> "https" -> Scheme u <> "" ->
       Open params = inr (New ("scheme " +:+ DQ +:+ Scheme u +:+ DQ +:+ " is not supported")))) /\
  (forall src,
      Open params = inl src ->
      (ctx (instance src) = WithCancel /\ cancel (instance src) = Some onClose) \/
      (ctx (instance src) = Background /\ cancel (instance src) = None /\
       producer src = scanGoroutine None (os_Open params).1)).
Proof.
  unfold Open. split; [|split].
  - intros err ->. reflexivity.
  - intros u ->. repeat split.
    + intros ->. reflexivity.
    + intros ->. reflexivity.
    + intros ->. reflexivity.
    + intros H1 H2 H3. apply String.eqb_neq in H1, H2, H3. now rewrite H1, H2, H3.
  - intros src. destruct (url_Parse params) as [u|err]; [|discriminate].
    destruct (String.eqb (Scheme u) "http").
    { intros H. left. destruct (OpenWebServer_inv _ _ _ _ _ _ _ _ H) as (_ & ? & ? & _). auto. }
    destruct (String.eqb (Scheme u) "https").
    { intros H. left. destruct (OpenWebServer_inv _ _ _ _ _ _ _ _ H) as (_ & ? & ? & _). auto. }
    destruct (String.eqb (Scheme u) ""); [|discriminate].
    intros H. right. destruct (OpenFilePath_inv _ _ _ _ _ _ H) as (_ & ? & ? & ? & _). auto.
Qed.

(** X17: a listener failure reaches the consumer. When [ListenAndServe]
    returns an error other than [http.ErrServerClosed], the serving
    goroutine sends it on the error channel, the parsing goroutine
    forwards it unchanged, and the pull that receives it returns the
    filled count with that very error and marks the source exhausted. *)
Theorem listener_failure_reaches_the_pull (address endpoint : string) (ssl : bool)
  (src : opened) (e : error) :
  OpenWebServer address endpoint ssl = inl src ->
  ListenAndServe address ssl = Some e ->
  isErrServerClosed e = false ->
  producer src = [SendError (Some e); CloseErrorChan] /\
  downstream (normalizerGoroutine (producer src)) = [inr (Some e)] /\
  (forall timeout i evts log s env,
      (i < length evts)%nat ->
      select (ctx (instance src)) timeout s = Some (CaseError (Recv (Some e))) ->
      batchLoop (instance src) timeout i evts log (s :: env) =
      Return i (Some e) (set_eof (instance src)) evts log).
Proof.
  intros Hopen Hlisten Hclosed.
  destruct (OpenWebServer_inv _ _ _ _ _ _ _ _ Hopen) as (Hprod & _).
  assert (Hops : producer src = [SendError (Some e); CloseErrorChan]).
  { rewrite Hprod, Hlisten. unfold serveGoroutine. now rewrite Hclosed. }
  split; [exact Hops|]. split.
  - now rewrite Hops.
  - intros timeout i evts log s env Hi Hsel. now rewrite batchLoop_unfold, Hsel.
Qed.

(** X18: a server that stops with [http.ErrServerClosed], or without
    error, reports nothing: the serving goroutine only closes the error
    channel, nothing reaches the pull, and the webhook producer never
    closes the event channel. *)
Theorem graceful_server_stop_reports_nothing (address endpoint : string) (ssl : bool)
  (src : opened) :
  OpenWebServer address endpoint ssl = inl src ->
  ~ In CloseEventChan (producer src) /\
  (ListenAndServe address ssl = None \/ ListenAndServe address ssl = Some ErrServerClosed ->
   producer src = [CloseErrorChan] /\
   downstream (normalizerGoroutine (producer src)) = []).
Proof.
  intros Hopen.
  destruct (OpenWebServer_inv _ _ _ _ _ _ _ _ Hopen) as (Hprod & _).
  rewrite Hprod. split.
  - unfold serveGoroutine. destruct (ListenAndServe address ssl) as [e|]; simpl.
    + destruct (isErrServerClosed e); simpl; intros H;
        repeat (destruct H as [H|H]; try discriminate); contradiction.
    + intros [H|[]]. discriminate.
  - intros [->| ->]; split; reflexivity.
Qed.

(** X19: a file read to its end yields the records of its non-empty
    lines, in file order and nothing else: empty lines are skipped, no
    value is sent on the error channel, and both channels are closed
    after the last line. *)
Theorem file_at_eof_yields_its_lines_in_order (filePath : string) (src : opened) :
  OpenFilePath filePath = inl src ->
  scanErr (os_Open filePath).1 = None ->
  let msgs := filter (fun line => nonEmpty line = true) (lines (os_Open filePath).1) in
  producer src = map SendBytes msgs ++ [CloseErrorChan; CloseEventChan] /\
  downstream (normalizerGoroutine (producer src)) = map inl (flat_map normalize msgs).
Proof.
  intros Hopen Hscan msgs.
  destruct (OpenFilePath_inv _ _ _ _ _ _ Hopen) as (_ & Hprod & _).
  assert (Hops : producer src = map SendBytes msgs ++ [CloseErrorChan; CloseEventChan]).
  { rewrite Hprod, scanGoroutine_sends, Hscan. reflexivity. }
  split; [exact Hops|].
  rewrite Hops, normalizerGoroutine_messages, downstream_messages.
  simpl. now rewrite app_nil_r.
Qed.

End SourceMore.

(** * The further properties at concrete inputs *)

Lemma nested_arrays_yield_leaf_records_witness :
  leaves nested = [event0; event1; eventList] /\
  parseJSONMessage true (parseListed knownTimes) nested
  = ([record event0 t0; record event1 t1; record event0 t0; record event1 t1], None).
Proof.
  split; [reflexivity|].
  apply (nested_arrays_yield_leaf_records true (parseListed knownTimes) nested).
  repeat constructor.
Defined.

Lemma failing_leaf_discards_message_witness :
  leaves spoiled = [event0] ++ junk :: [event1] /\
  onParsed true (parseListed knownTimes) (inl spoiled)
  = discards (New "data not recognized as a k8s audit event").
Proof.
  split; [reflexivity|].
  apply (failing_leaf_discards_message true (parseListed knownTimes) spoiled
           [event0] [event1] junk (New "data not recognized as a k8s audit event")).
  - reflexivity.
  - constructor; [reflexivity | constructor].
  - reflexivity.
Defined.

Lemma event_without_timestamp_is_discarded_witness :
  onParsed true (parseListed knownTimes) (inl headlessEvent)
  = discards (New "can't read stageTimestamp") /\
  onParsed true (parseListed knownTimes) (inl staleEvent)
  = discards (New "cannot parse time") /\
  onParsed true (parseListed knownTimes) (inl numericStamp)
  = discards (New "cannot parse time").
Proof.
  split; [|split].
  - apply (proj1 (event_without_timestamp_is_discarded true (parseListed knownTimes)
                    [("kind", Str "Event"); ("verb", Str "get")] eq_refl)).
    reflexivity.
  - apply (proj1 (proj2 (event_without_timestamp_is_discarded true (parseListed knownTimes)
                           [("kind", Str "Event"); ("stageTimestamp", Str "yesterday")]
                           eq_refl))
             "yesterday" (New "cannot parse time")); reflexivity.
  - apply (proj2 (proj2 (event_without_timestamp_is_discarded true (parseListed knownTimes)
                           [("kind", Str "Event"); ("stageTimestamp", Number "1672531200")]
                           eq_refl))
             (Number "1672531200")); [reflexivity | discriminate].
Defined.

Lemma event_list_items_need_only_a_timestamp_witness :
  Get bareItem "kind" = None /\
  Forall2 (stamped (parseListed knownTimes)) [bareItem; oddItem; event0] [t1; t0; t0] /\
  onParsed true (parseListed knownTimes) (inl mixedList)
  = emits [record bareItem t1; record oddItem t0; record event0 t0].
Proof.
  assert (Hst : Forall2 (stamped (parseListed knownTimes))
                  [bareItem; oddItem; event0] [t1; t0; t0]).
  { constructor; [exists ts1; split; reflexivity|].
    constructor; [exists ts0; split; reflexivity|].
    constructor; [exists ts0; split; reflexivity|]. constructor. }
  split; [reflexivity|]. split; [exact Hst|].
  apply (proj2 (event_list_items_need_only_a_timestamp true (parseListed knownTimes)
                  [("kind", Str "EventList"); ("items", Array [bareItem; oddItem; event0])]
                  [bareItem; oddItem; event0] [t1; t0; t0] eq_refl eq_refl Hst)).
  discriminate.
Defined.

Lemma event_list_bad_item_discards_list_witness :
  parseJSONAuditEvent (parseListed knownTimes) headlessEvent
  = inr (New "can't read stageTimestamp") /\
  parseJSONMessage true (parseListed knownTimes) brokenList
  = ([], Some (New "can't read stageTimestamp")) /\
  onParsed true (parseListed knownTimes) (inl brokenList)
  = discards (New "can't read stageTimestamp").
Proof.
  split; [reflexivity|].
  apply (event_list_bad_item_discards_list true (parseListed knownTimes)
           [("kind", Str "EventList"); ("items", Array [event0; headlessEvent; event1])]
           [event0] [event1] [t0] headlessEvent (New "can't read stageTimestamp")).
  - reflexivity.
  - reflexivity.
  - constructor; [exists ts0; split; reflexivity | constructor].
  - reflexivity.
Defined.

Lemma event_list_without_items_is_not_recognized_witness :
  Object_Get [("kind", Str "EventList"); ("items", Str "none")] "items" = Some (Str "none") /\
  onParsed false (parseListed knownTimes) (inl emptyList)
  = discards (New "data not recognized as a k8s audit event").
Proof.
  split; [reflexivity|].
  apply (event_list_without_items_is_not_recognized false (parseListed knownTimes)
           [("kind", Str "EventList"); ("items", Str "none")]).
  - reflexivity.
  - intros a. discriminate.
Defined.

Lemma malformed_message_is_skipped_witness :
  parseUnlessTorn "{" = inr (New "unexpected end of JSON") /\
  downstream (normalizerGoroutine true (parseListed knownTimes) parseUnlessTorn
                (map SendBytes ["[1]"] ++ SendBytes "{" :: [SendBytes "[2]"; CloseEventChan]))
  = downstream (normalizerGoroutine true (parseListed knownTimes) parseUnlessTorn
                  (map SendBytes ["[1]"] ++ [SendBytes "[2]"; CloseEventChan])).
Proof.
  split; [reflexivity|].
  apply (malformed_message_is_skipped true (parseListed knownTimes) parseUnlessTorn
           ["[1]"] "{" (New "unexpected end of JSON") [SendBytes "[2]"; CloseEventChan]).
  reflexivity.
Defined.

Lemma pull_keeps_batch_shape_witness :
  NextBatch marshal storeWrite plugin0 (instance fileOpened) (emptySlots 4) 0
    [offer 1 (inl (record event0 t0)); quiet 30000000]
  = Return 1 (Some ErrTimeout) (instance fileOpened)
      (<[0%nat:=filled marshal storeWrite {| written := ""; timestamp := 0 |}
                  (record event0 t0)]> (emptySlots 4)) [] /\
  (1 <= length (emptySlots 4))%nat /\
  <[0%nat:=filled marshal storeWrite {| written := ""; timestamp := 0 |}
             (record event0 t0)]> (emptySlots 4) !! 2%nat
  = emptySlots 4 !! 2%nat.
Proof.
  assert (Hpull : NextBatch marshal storeWrite plugin0 (instance fileOpened) (emptySlots 4) 0
                    [offer 1 (inl (record event0 t0)); quiet 30000000]
                  = Return 1 (Some ErrTimeout) (instance fileOpened)
                      (<[0%nat:=filled marshal storeWrite {| written := ""; timestamp := 0 |}
                                  (record event0 t0)]> (emptySlots 4)) []) by reflexivity.
  split; [exact Hpull|].
  destruct (pull_keeps_batch_shape marshal storeWrite plugin0 _ _ _ _ _ _ _ _ _ Hpull)
    as (Hn & _ & _ & Hslots & _).
  split; [exact Hn | apply Hslots; lia].
Defined.

Lemma pull_returns_once_due_without_record_witness :
  30000000 <= now (quiet 30000000) /\
  exists err e',
    batchLoop marshal storeWrite plugin0 (instance webOpened) 30000000 2 (emptySlots 4) []
      [quiet 30000000]
    = Return 2 err e' (emptySlots 4) [] /\
    ((err = Some ErrTimeout /\ e' = instance webOpened) \/ e' = set_eof (instance webOpened)).
Proof.
  split; [simpl; lia|].
  apply (pull_returns_once_due_without_record marshal storeWrite plugin0
           (instance webOpened) 30000000 2%nat (emptySlots 4) [] (quiet 30000000) []).
  - simpl. lia.
  - simpl. lia.
  - reflexivity.
Defined.

Lemma records_fill_slots_in_arrival_order_witness :
  Forall (fits marshal plugin0) [record event0 t0; record event0 t1] /\
  exists evts' : list EventWriter,
    batchLoop marshal storeWrite plugin0 (instance fileOpened) 30000000 2 (emptySlots 4) []
      ([offer 1 (inl (record event0 t0)); offer 2 (inl (record event0 t1))] ++ [closedEvents])
    = Return 4 None (instance fileOpened) evts' [] /\
    evts' !! 2%nat = Some {| written := marshal event0; timestamp := 1672531200000000000 |} /\
    evts' !! 3%nat = Some {| written := marshal event0; timestamp := 1672531201500000000 |} /\
    evts' !! 0%nat = Some {| written := ""; timestamp := 0 |}.
Proof.
  assert (Hfit : Forall (fits marshal plugin0) [record event0 t0; record event0 t1]).
  { constructor; [unfold fits; vm_compute; discriminate|].
    constructor; [unfold fits; vm_compute; discriminate | constructor]. }
  split; [exact Hfit|].
  destruct (records_fill_slots_in_arrival_order marshal storeWrite plugin0
              (instance fileOpened) 30000000
              [offer 1 (inl (record event0 t0)); offer 2 (inl (record event0 t1))]
              [record event0 t0; record event0 t1] [closedEvents] 2%nat (emptySlots 4) [])
    as (evts' & _ & _ & Hnew & Hold & Hfull).
  - constructor; [reflexivity|]. constructor; [reflexivity | constructor].
  - intros w ev _. reflexivity.
  - exact Hfit.
  - simpl. lia.
  - exists evts'. split; [apply Hfull; reflexivity|]. split; [|split].
    + apply (Hnew 0%nat (record event0 t0) {| written := ""; timestamp := 0 |});
        reflexivity.
    + apply (Hnew 1%nat (record event0 t1) {| written := ""; timestamp := 0 |});
        reflexivity.
    + rewrite (Hold 0%nat) by (left; lia). reflexivity.
Defined.

Lemma oversized_records_are_filtered_out_witness :
  ~ fits marshal plugin0 (record event1 t1) /\
  exists evts' : list EventWriter,
    batchLoop marshal storeWrite plugin0 (instance fileOpened) 30000000 0 (emptySlots 4) []
      ([offer 1 (inl (record event1 t1)); offer 2 (inl (record event0 t0))]
       ++ [quiet 30000000])
    = Return 1 (Some ErrTimeout) (instance fileOpened) evts'
        ["dropped event larger than maxEventSize: size=71"] /\
    evts' !! 0%nat = Some {| written := marshal event0; timestamp := 1672531200000000000 |}.
Proof.
  split; [unfold fits; vm_compute; intros H; now apply H|].
  destruct (oversized_records_are_filtered_out marshal storeWrite plugin0
              (instance fileOpened) 30000000
              [offer 1 (inl (record event1 t1)); offer 2 (inl (record event0 t0))]
              [record event1 t1; record event0 t0] [quiet 30000000] 0%nat (emptySlots 4) [])
    as (evts' & Heq & Hlen & Hnew & _).
  - constructor; [reflexivity|]. constructor; [reflexivity | constructor].
  - intros w ev _. reflexivity.
  - vm_compute. lia.
  - exists evts'. split.
    + rewrite Heq.
      set (n := (0 + length _)%nat). vm_compute in n. subst n.
      set (lg := [] ++ dropLog _ _ _). vm_compute in lg. subst lg.
      rewrite batchLoop_unfold by (rewrite Hlen; simpl; lia). reflexivity.
    + apply (Hnew 0%nat (record event0 t0) {| written := ""; timestamp := 0 |});
        reflexivity.
Defined.

Lemma closed_webhook_source_ends_stream_witness :
  OpenWebServer plugin0 4 newSlots listenOk "0.0.0.0:9765" "/k8s-audit" false = inl webOpened /\
  cancelCtxCalled afterCancel = cancelled (Close (instance webOpened) world0) /\
  batchLoop marshal storeWrite plugin0 (instance webOpened) 30000000 1 (emptySlots 4) []
    [afterCancel]
  = Return 1 (Some ErrEOF) (set_eof (instance webOpened)) (emptySlots 4) [].
Proof.
  split; [reflexivity|]. split; [reflexivity|].
  apply (closed_webhook_source_ends_stream plugin0 4 newSlots listenOk marshal storeWrite
           "0.0.0.0:9765" "/k8s-audit" false webOpened world0 30000000 1%nat
           (emptySlots 4) [] afterCancel []).
  - reflexivity.
  - simpl. lia.
  - reflexivity.
  - reflexivity.
  - reflexivity.
  - simpl. lia.
Defined.

Lemma file_source_ignores_cancellation_witness :
  OpenFilePath plugin0 4 newSlots openTorn "audit.log" = inl fileOpened /\
  cancelCtxCalled afterCancel = true /\
  batchLoop marshal storeWrite plugin0 (instance fileOpened) 30000000 0 (emptySlots 4) []
    [afterCancel; quiet 30000000]
  = Return 0 (Some ErrTimeout) (instance fileOpened) (emptySlots 4) [].
Proof.
  split; [reflexivity|]. split; [reflexivity|].
  rewrite (proj2 (file_source_ignores_cancellation plugin0 4 newSlots openTorn marshal
                    storeWrite "audit.log" fileOpened 30000000 afterCancel eq_refl)
             0%nat (emptySlots 4) [] [quiet 30000000]).
  - reflexivity.
  - simpl. lia.
  - reflexivity.
  - reflexivity.
  - simpl. lia.
Defined.

Lemma open_selects_the_producer_by_scheme_witness :
  Open plugin0 4 newSlots openWhole listenOk parseUrl "http://0.0.0.0:9765/k8s-audit"
  = inl webOpened /\
  Open plugin0 4 newSlots openWhole listenOk parseUrl "audit.log" = inl wholeOpened /\
  Open plugin0 4 newSlots openWhole listenOk parseUrl "ftp://example.org/audit.log"
  = inr (New ("scheme " +:+ DQ +:+ "ftp" +:+ DQ +:+ " is not supported")) /\
  Open plugin0 4 newSlots openWhole listenOk parseUrl ":audit" = inr (New "missing protocol scheme").
Proof.
  split; [|split; [|split]].
  - rewrite (proj1 (proj1 (proj2 (open_selects_the_producer_by_scheme plugin0 4 newSlots
               openWhole listenOk parseUrl "http://0.0.0.0:9765/k8s-audit"))
               {| Scheme := "http"; Host := "0.0.0.0:9765"; Path := "/k8s-audit" |} eq_refl)
               eq_refl).
    reflexivity.
  - rewrite (proj1 (proj2 (proj2 (proj1 (proj2 (open_selects_the_producer_by_scheme plugin0 4
               newSlots openWhole listenOk parseUrl "audit.log"))
               {| Scheme := ""; Host := ""; Path := "audit.log" |} eq_refl))) eq_refl).
    reflexivity.
  - apply (proj2 (proj2 (proj2 (proj1 (proj2 (open_selects_the_producer_by_scheme plugin0 4
             newSlots openWhole listenOk parseUrl "ftp://example.org/audit.log"))
             {| Scheme := "ftp"; Host := "example.org"; Path := "/audit.log" |} eq_refl))));
      discriminate.
  - apply (proj1 (open_selects_the_producer_by_scheme plugin0 4 newSlots openWhole listenOk
                    parseUrl ":audit")).
    reflexivity.
Defined.

Lemma listener_failure_reaches_the_pull_witness :
  OpenWebServer plugin0 4 newSlots listenBusy "0.0.0.0:9765" "/k8s-audit" false
  = inl busyOpened /\
  downstream (normalizerGoroutine true (parseListed knownTimes) (parseAs event0)
                (producer busyOpened))
  = [inr (Some (New "listen tcp 0.0.0.0:9765: bind: address already in use"))] /\
  batchLoop marshal storeWrite plugin0 (instance busyOpened) 30000000 0 (emptySlots 4) []
    [offer 3 (inr (Some (New "listen tcp 0.0.0.0:9765: bind: address already in use")))]
  = Return 0 (Some (New "listen tcp 0.0.0.0:9765: bind: address already in use"))
      (set_eof (instance busyOpened)) (emptySlots 4) [].
Proof.
  split; [reflexivity|].
  destruct (listener_failure_reaches_the_pull plugin0 4 newSlots listenBusy true
              (parseListed knownTimes) (parseAs event0) marshal storeWrite
              "0.0.0.0:9765" "/k8s-audit" false busyOpened
              (New "listen tcp 0.0.0.0:9765: bind: address already in use")
              eq_refl eq_refl eq_refl) as (_ & Hdown & Hpull).
  split; [exact Hdown|].
  apply Hpull; [simpl; lia | reflexivity].
Defined.

Lemma graceful_server_stop_reports_nothing_witness :
  OpenWebServer plugin0 4 newSlots listenOk "0.0.0.0:9765" "/k8s-audit" false = inl webOpened /\
  listenOk "0.0.0.0:9765" false = Some ErrServerClosed /\
  producer webOpened = [CloseErrorChan] /\
  downstream (normalizerGoroutine true (parseListed knownTimes) (parseAs event0)
                (producer webOpened)) = [].
Proof.
  split; [reflexivity|]. split; [reflexivity|].
  apply (proj2 (graceful_server_stop_reports_nothing plugin0 4 newSlots listenOk true
                  (parseListed knownTimes) (parseAs event0)
                  "0.0.0.0:9765" "/k8s-audit" false webOpened eq_refl)).
  right. reflexivity.
Defined.

Lemma file_at_eof_yields_its_lines_in_order_witness :
  OpenFilePath plugin0 4 newSlots openWhole "audit.log" = inl wholeOpened /\
  scanErr (openWhole "audit.log").1 = None /\
  downstream (normalizerGoroutine true (parseListed knownTimes) (parseAs eventList)
                (producer wholeOpened))
  = [inl (record event0 t0); inl (record event1 t1);
     inl (record event0 t0); inl (record event1 t1)].
Proof.
  split; [reflexivity|]. split; [reflexivity|].
  rewrite (proj2 (file_at_eof_yields_its_lines_in_order plugin0 4 newSlots openWhole true
                    (parseListed knownTimes) (parseAs eventList) "audit.log" wholeOpened
                    eq_refl eq_refl)).
  reflexivity.
Defined.
